(** * ptrace: trace ingestion and event index

    A shallow embedding of the trace engine of [skills/ptrace]:
    [models.py], [archive.py], [parsers/browser_trace.py],
    [parsers/test_trace.py], [parsers/network.py] and [index.py].

    Conventions of the embedding.

    - A Python [float] is a [pyfloat]: an exact rational, one of the two
      infinities, or NaN.  Comparison and arithmetic follow IEEE 754 on the
      special values; rounding of finite values is not modelled.
    - A number read from a decoded JSON record is a rational ([Q]); the
      tokens [NaN] and [Infinity], which are not JSON, are outside the model.
    - A decoded JSON record is an [Entry]: one optional, typed field per key
      the parsers read; [None] is an absent key.
    - Generators are the lists of what they yield; instance attributes that
      are assigned after construction are threaded as explicit state.
    - A raised exception is the [Raise] case of [result]. *)

From Stdlib Require Import QArith Qabs Lqa.
From stdpp Require Import gmap strings list sorting.

Local Open Scope Z_scope.

(** ** Python floats *)

Inductive pyfloat : Type :=
| Finite (q : Q)
| PosInf
| NegInf
| NaN.

Module Float.

(** Three-way comparison; [None] when an operand is NaN (every ordered
    comparison and [==] are then false). *)
Definition compare (a b : pyfloat) : option comparison :=
  match a, b with
  | NaN, _ | _, NaN => None
  | Finite x, Finite y => Some (x ?= y)%Q
  | PosInf, PosInf | NegInf, NegInf => Some Eq
  | NegInf, _ | _, PosInf => Some Lt
  | PosInf, _ | _, NegInf => Some Gt
  end.

Definition eqb (a b : pyfloat) : bool :=
  match compare a b with Some Eq => true | _ => false end.
Definition neqb (a b : pyfloat) : bool := negb (eqb a b).
Definition ltb (a b : pyfloat) : bool :=
  match compare a b with Some Lt => true | _ => false end.
Definition leb (a b : pyfloat) : bool :=
  match compare a b with Some Lt | Some Eq => true | _ => false end.
Definition gtb (a b : pyfloat) : bool := ltb b a.
Definition geb (a b : pyfloat) : bool := leb b a.

Definition opp (a : pyfloat) : pyfloat :=
  match a with
  | Finite x => Finite (- x)
  | PosInf => NegInf
  | NegInf => PosInf
  | NaN => NaN
  end.

Definition add (a b : pyfloat) : pyfloat :=
  match a, b with
  | NaN, _ | _, NaN => NaN
  | Finite x, Finite y => Finite (x + y)
  | PosInf, NegInf | NegInf, PosInf => NaN
  | PosInf, _ | _, PosInf => PosInf
  | NegInf, _ | _, NegInf => NegInf
  end.

Definition sub (a b : pyfloat) : pyfloat := add a (opp b).

Definition abs (a : pyfloat) : pyfloat :=
  match a with
  | Finite x => Finite (Qabs x)
  | PosInf | NegInf => PosInf
  | NaN => NaN
  end.

Definition is_nan (a : pyfloat) : bool :=
  match a with NaN => true | _ => false end.

Definition is_finite (a : pyfloat) : bool :=
  match a with Finite _ => true | _ => false end.

(** The values a timestamp of a parsed event takes: a number or the
    [float("inf")] sentinel. *)
Definition is_stamp (a : pyfloat) : bool :=
  match a with Finite _ | PosInf => true | _ => false end.

End Float.

(** ** Event types ([models.py], [EventType]) *)

Inductive EventType : Type :=
| Network | Console | Action | Error | Screenshot | Log | Input.

Global Instance EventType_eq_dec : EqDecision EventType.
Proof. solve_decision. Defined.

(** The string literal of each member of the [Literal[...]] type. *)
Definition type_name (t : EventType) : string :=
  match t with
  | Network => "network"
  | Console => "console"
  | Action => "action"
  | Error => "error"
  | Screenshot => "screenshot"
  | Log => "log"
  | Input => "input"
  end.

Definition all_types : list EventType :=
  [Network; Console; Action; Error; Screenshot; Log; Input].

(** Python [str] comparison on these names is by code point, which on ASCII
    text is the byte-wise lexicographic order of [String.compare]. *)
Definition str_ltb (a b : string) : bool :=
  match String.compare a b with Lt => true | _ => false end.
Definition str_leb (a b : string) : bool :=
  match String.compare a b with Gt => false | _ => true end.

(** ** [list.sort(key=...)]

    Python's sort is stable and compares keys with [<] only.  On keys that
    [<] orders as a strict weak order every stable sort returns the same
    list, so the insertion sort below is the function [list.sort] computes. *)

Section Sort.
Context {A K : Type} (lt : K → K → bool) (key : A → K).

Fixpoint insert_by (x : A) (l : list A) : list A :=
  match l with
  | [] => [x]
  | y :: l' =>
      if lt (key y) (key x) then y :: insert_by x l' else x :: y :: l'
  end.

Definition sort_by (l : list A) : list A := foldr insert_by [] l.
End Sort.

(** ** Text and JSON values *)

(** A [str] whose characters matter, as its code points. *)
Definition pystr : Type := list N.

(** The code points of an ASCII literal. *)
Definition codepoints (s : string) : pystr :=
  Ascii.N_of_ascii <$> String.list_ascii_of_string s.

(** A decoded JSON value that the parsers pass on without reading it.  A
    dict is the list of its entries; [json.loads] leaves each key once. *)
#[warnings="-register-all"]
Inductive json : Type :=
| JNull
| JBool (b : bool)
| JNum (q : Q)
| JStr (s : string)
| JList (items : list json)
| JDict (entries : list (string * json)).

Fixpoint dict_get (key : string) (entries : list (string * json)) : option json :=
  match entries with
  | [] => None
  | (k, v) :: rest => if String.eqb k key then Some v else dict_get key rest
  end.

(** ** Decoded trace records

    What [json.loads] returns for one line of a stream, restricted to the
    keys the parsers read.  Nested keys are flattened:
    [k_viewport] is [options.viewport]; [k_location_url],
    [k_lineNumber] and [k_columnNumber] are the entries of [location];
    [k_result_error] is [str(result.error)] when [result] is a dict whose
    [error] entry is truthy, and [None] otherwise. *)

Record Entry : Type := mkEntry {
  k_type : option string;
  k_callId : option string;
  k_stepId : option string;
  k_method : option string;
  k_title : option string;
  k_pageId : option string;
  k_params : option (list (string * json));
  k_startTime : option Q;
  k_endTime : option Q;
  k_result_error : option string;
  k_beforeSnapshot : option string;
  k_afterSnapshot : option string;
  k_messageType : option string;
  k_text : option string;
  k_location_url : option string;
  k_time : option Q;
  k_sha1 : option string;
  k_width : option Z;
  k_height : option Z;
  k_timestamp : option Q;
  k_message : option pystr;
  k_monotonicTime : option Q;
  k_wallTime : option Q;
  k_browserName : option string;
  k_viewport : option (Z * Z);
  k_lineNumber : option Z;
  k_columnNumber : option Z;
  k_args : option (list json);
  k_stack : option (list json)
}.

(** The empty dict [{}]. *)
Definition empty_entry : Entry :=
  mkEntry None None None None None None None None None None None None None
          None None None None None None None None None None None None None None
          None None.

(** One line of [0-trace.network].  [s_startedDateTime] is the value of
    [datetime.fromisoformat(started.replace("Z", "+00:00")).timestamp() * 1000]
    and is [None] when the key is absent, empty or not ISO-8601 (the
    [ValueError] branch). *)
Record Snapshot : Type := mkSnapshot {
  s_monotonicTime : option Q;
  s_startedDateTime : option Q;
  s_method : option string;
  s_url : option string;
  s_status : option Z;
  s_statusText : option string;
  s_time : option Q
}.

Record NetEntry : Type := mkNetEntry {
  n_type : option string;
  n_snapshot : option Snapshot
}.

Definition empty_snapshot : Snapshot :=
  mkSnapshot None None None None None None None.

(** [d.get(key, dflt)] on an optional field. *)
Definition get {A} (field : option A) (dflt : A) : A := default dflt field.

(** Truth value of a [str]. *)
Definition truthy (s : string) : bool :=
  match s with EmptyString => false | _ => true end.

(** [a or b] on strings, the first operand possibly [None]. *)
Definition str_or (a : option string) (b : string) : string :=
  match a with
  | Some s => if truthy s then s else b
  | None => b
  end.

(** ** Payloads and the unified event ([models.py]) *)

(** Headers, bodies, query parameters and timings of a network call are
    carried by [raw] only. *)
Record NetworkEvent : Type := mkNetworkEvent {
  ne_method : string;
  ne_url : string;
  ne_status : Z;
  ne_status_text : string;
  ne_duration_ms : Q
}.

Record ConsoleEvent : Type := mkConsoleEvent {
  level : string;
  text : string;
  args : list json;
  source_url : string;
  line_number : Z;
  column_number : Z
}.

Record ActionEvent : Type := mkActionEvent {
  action_name : string;            (* field [action] *)
  selector : option string;
  params : list (string * json);
  call_id : string;
  page_id : string;
  duration_ms : Q;
  title : string;
  action_error : option string;    (* field [error] *)
  before_snapshot : option string;
  after_snapshot : option string
}.

Record ErrorEvent : Type := mkErrorEvent {
  message : pystr;
  stack : list json;
  source : string;
  expected : option pystr;
  received : option pystr
}.

Record ScreenshotRef : Type := mkScreenshotRef {
  sha1 : string;
  width : Z;
  height : Z;
  resource_path : string
}.

(** The [raw] field: the record an event was made from, or the
    [{"before": ..., "after": ...}] pair of a reconstructed span. *)
Inductive Raw : Type :=
| RawEntry (entry : Entry)
| RawNet (entry : NetEntry)
| RawPair (before after : Entry).

Record Event : Type := mkEvent {
  index : Z;
  timestamp_ms : pyfloat;
  event_type : EventType;
  subtype : option string;
  source_file : string;
  raw : Raw;
  network : option NetworkEvent;
  console : option ConsoleEvent;
  action : option ActionEvent;
  error : option ErrorEvent;
  screenshot : option ScreenshotRef
}.

(** [event.index = i] *)
Definition set_index (i : Z) (e : Event) : Event :=
  mkEvent i (timestamp_ms e) (event_type e) (subtype e) (source_file e)
          (raw e) (network e) (console e) (action e) (error e) (screenshot e).

(** ** The archive ([archive.py]) *)

Inductive exn : Type :=
| KeyError (name : string)
| UnicodeDecodeError.

Inductive result (A : Type) : Type :=
| Return (a : A)
| Raise (e : exn).
Arguments Return {A} a.
Arguments Raise {A} e.

(** An open archive.  [zf] is the zip container (member name to bytes); the
    three streams are what [iter_browser_trace], [iter_test_trace] and
    [iter_network] yield: the lines of the member that decode as JSON, in
    order, and nothing when the member is absent.  The last two fields are
    the memo attributes. *)
Record TraceArchive : Type := mkArchive {
  zf : gmap string (list Byte.byte);
  iter_browser_trace : list Entry;
  iter_test_trace : list Entry;
  iter_network : list NetEntry;
  _context_options : option Entry;
  _trace_start_time : option Q
}.

(** [__init__] on an existing, valid zip file. *)
Definition open_archive (files : gmap string (list Byte.byte))
    (browser test : list Entry) (net : list NetEntry) : TraceArchive :=
  mkArchive files browser test net None None.

Definition set_context_options (a : TraceArchive) (c : Entry) : TraceArchive :=
  mkArchive (zf a) (iter_browser_trace a) (iter_test_trace a) (iter_network a)
            (Some c) (_trace_start_time a).

Definition set_trace_start_time (a : TraceArchive) (t : Q) : TraceArchive :=
  mkArchive (zf a) (iter_browser_trace a) (iter_test_trace a) (iter_network a)
            (_context_options a) (Some t).

(** [ZipFile.read(name)]: the member's bytes, or [KeyError]. *)
Definition zf_read (a : TraceArchive) (name : string) : result (list Byte.byte) :=
  match zf a !! name with
  | Some data => Return data
  | None => Raise (KeyError name)
  end.

Definition startswith (prefix s : string) : bool := String.prefix prefix s.

Definition get_resource (self : TraceArchive) (sha1_or_path : string)
    : result (list Byte.byte) :=
  if startswith "resources/" sha1_or_path
  then zf_read self sha1_or_path
  else zf_read self ("resources/" ++ sha1_or_path).

(** [bytes.decode("utf-8")], strict: the code points of a well-formed UTF-8
    byte sequence (no overlong form, no surrogate, nothing above U+10FFFF),
    [None] where Python raises [UnicodeDecodeError]. *)
Definition is_cont (b : N) : bool := ((128 <=? b) && (b <=? 191))%N.

Fixpoint utf8_decode (bs : list N) : option (list N) :=
  match bs with
  | [] => Some []
  | b0 :: r0 =>
      if (b0 <? 128)%N then cons b0 <$> utf8_decode r0
      else if ((194 <=? b0) && (b0 <=? 223))%N then
        match r0 with
        | b1 :: r1 =>
            if is_cont b1
            then cons ((b0 - 192) * 64 + (b1 - 128))%N <$> utf8_decode r1
            else None
        | _ => None
        end
      else if ((224 <=? b0) && (b0 <=? 239))%N then
        match r0 with
        | b1 :: b2 :: r2 =>
            let lo := if (b0 =? 224)%N then 160%N else 128%N in
            let hi := if (b0 =? 237)%N then 159%N else 191%N in
            if ((lo <=? b1) && (b1 <=? hi))%N && is_cont b2
            then cons ((b0 - 224) * 4096 + (b1 - 128) * 64 + (b2 - 128))%N
                   <$> utf8_decode r2
            else None
        | _ => None
        end
      else if ((240 <=? b0) && (b0 <=? 244))%N then
        match r0 with
        | b1 :: b2 :: b3 :: r3 =>
            let lo := if (b0 =? 240)%N then 144%N else 128%N in
            let hi := if (b0 =? 244)%N then 143%N else 191%N in
            if ((lo <=? b1) && (b1 <=? hi))%N && is_cont b2 && is_cont b3
            then cons ((b0 - 240) * 262144 + (b1 - 128) * 4096
                       + (b2 - 128) * 64 + (b3 - 128))%N
                   <$> utf8_decode r3
            else None
        | _ => None
        end
      else None
  end.

Definition decode (data : list Byte.byte) : result pystr :=
  match utf8_decode (Byte.to_N <$> data) with
  | Some s => Return s
  | None => Raise UnicodeDecodeError
  end.

Definition get_resource_text (self : TraceArchive) (sha1_or_path : string)
    : result (option pystr) :=
  let attempt :=
    match get_resource self sha1_or_path with
    | Return data => decode data
    | Raise e => Raise e
    end in
  match attempt with
  | Return s => Return (Some s)
  | Raise (KeyError _) => Return None
  | Raise UnicodeDecodeError => Return None
  end.

(** The metadata accessors return their value and the archive with its memo
    attributes as the call leaves them. *)
Definition is_type (name : string) (entry : Entry) : bool :=
  bool_decide (k_type entry = Some name).

Definition get_context_options (self : TraceArchive) : Entry * TraceArchive :=
  match _context_options self with
  | Some ctx => (ctx, self)
  | None =>
      match List.find (is_type "context-options") (iter_browser_trace self) with
      | Some entry => (entry, set_context_options self entry)
      | None => (empty_entry, set_context_options self empty_entry)
      end
  end.

Definition get_trace_start_time (self : TraceArchive) : Q * TraceArchive :=
  match _trace_start_time self with
  | Some t => (t, self)
  | None =>
      let '(ctx, self) := get_context_options self in
      let start_time := get (k_monotonicTime ctx) 0%Q in
      (start_time, set_trace_start_time self start_time)
  end.

Definition get_wall_time (self : TraceArchive) : Q * TraceArchive :=
  let '(ctx, self) := get_context_options self in
  (get (k_wallTime ctx) 0%Q, self).

Definition get_test_name (self : TraceArchive) : string * TraceArchive :=
  let '(ctx, self) := get_context_options self in
  (get (k_title ctx) EmptyString, self).

Definition get_browser_name (self : TraceArchive) : string * TraceArchive :=
  let '(ctx, self) := get_context_options self in
  (get (k_browserName ctx) EmptyString, self).

Definition get_viewport (self : TraceArchive) : (Z * Z) * TraceArchive :=
  let '(ctx, self) := get_context_options self in
  (get (k_viewport ctx) (0, 0), self).

(** [namelist()]: the member names.  The map keeps no order, so only
    membership in this list is meaningful. *)
Definition list_files (self : TraceArchive) : list string :=
  (map_to_list (zf self)).*1.

Definition has_file (self : TraceArchive) (name : string) : bool :=
  bool_decide (name ∈ list_files self).

Definition read_raw (self : TraceArchive) (name : string)
    : result (list Byte.byte) :=
  zf_read self name.

Definition read_text (self : TraceArchive) (name : string) : result pystr :=
  match zf_read self name with
  | Return data => decode data
  | Raise e => Raise e
  end.

Definition endswith (suffix s : string) : bool :=
  String.prefix (String.rev suffix) (String.rev s).

Definition list_screenshots (self : TraceArchive) : list string :=
  List.filter (λ name, startswith "resources/page@" name && endswith ".jpeg" name)
    (list_files self).

Definition list_source_files (self : TraceArchive) : list string :=
  List.filter (λ name, startswith "resources/src@" name && endswith ".txt" name)
    (list_files self).

(** ** Runtime parser ([parsers/browser_trace.py]) *)

Module BrowserTraceParser.

(** The parser's attribute [_before_events] and the five counters local to
    [parse]. *)
Record state : Type := mkState {
  _before_events : gmap string Entry;
  console_index : Z;
  action_index : Z;
  screenshot_index : Z;
  log_index : Z;
  input_index : Z
}.

(** [__init__]: nothing pending; [parse] starts its counters at zero. *)
Definition init : state := mkState ∅ 0 0 0 0 0.

Definition _parse_console (entry : Entry) (index : Z) : option Event :=
  let level := get (k_messageType entry) "log" in
  let text := get (k_text entry) EmptyString in
  let console_event :=
    mkConsoleEvent level text (get (k_args entry) [])
      (get (k_location_url entry) EmptyString)
      (get (k_lineNumber entry) 0) (get (k_columnNumber entry) 0) in
  Some (mkEvent index (Finite (get (k_time entry) 0%Q)) Console (Some level)
          "0-trace.trace" (RawEntry entry)
          None (Some console_event) None None None).

Definition _parse_action (before after : Entry) (index : Z) : option Event :=
  let method := get (k_method before) EmptyString in
  let params := get (k_params before) [] in
  let selector :=
    match dict_get "selector" params with
    | Some (JStr s) => Some s
    | _ => None
    end in
  let start_time := get (k_startTime before) 0%Q in
  let end_time := get (k_endTime after) start_time in
  let duration_ms := (end_time - start_time)%Q in
  let title := get (k_title before) EmptyString in
  let error := k_result_error after in
  let action_event :=
    mkActionEvent method selector params
      (get (k_callId before) EmptyString)
      (get (k_pageId before) EmptyString)
      duration_ms title error
      (k_beforeSnapshot before) (k_afterSnapshot after) in
  Some (mkEvent index (Finite start_time) Action (Some method)
          "0-trace.trace" (RawPair before after)
          None None (Some action_event) None None).

Definition _parse_screenshot (entry : Entry) (index : Z) : option Event :=
  let sha1 := get (k_sha1 entry) EmptyString in
  if negb (truthy sha1) then None
  else
    let screenshot :=
      mkScreenshotRef sha1 (get (k_width entry) 0) (get (k_height entry) 0)
        ("resources/" ++ sha1) in
    Some (mkEvent index (Finite (get (k_timestamp entry) 0%Q)) Screenshot None
            "0-trace.trace" (RawEntry entry)
            None None None None (Some screenshot)).

Definition _parse_log (entry : Entry) (index : Z) : option Event :=
  Some (mkEvent index (Finite (get (k_time entry) 0%Q)) Log None
          "0-trace.trace" (RawEntry entry) None None None None None).

Definition _parse_input (entry : Entry) (index : Z) : option Event :=
  Some (mkEvent index (Finite 0%Q) Input None
          "0-trace.trace" (RawEntry entry) None None None None None).

(** One iteration of the loop of [parse]: the state it leaves and what it
    yields.  A pending record is a [before] record, never the empty dict,
    so [if before:] is the test that the lookup found one. *)
Definition step (st : state) (entry : Entry) : state * list Event :=
  let event_type := k_type entry in
  if bool_decide (event_type = Some "console") then
    match _parse_console entry (console_index st) with
    | Some event =>
        (mkState (_before_events st) (console_index st + 1) (action_index st)
           (screenshot_index st) (log_index st) (input_index st), [event])
    | None => (st, [])
    end
  else if bool_decide (event_type = Some "before") then
    let call_id := get (k_callId entry) EmptyString in
    if truthy call_id then
      (mkState (<[call_id := entry]> (_before_events st)) (console_index st)
         (action_index st) (screenshot_index st) (log_index st)
         (input_index st), [])
    else (st, [])
  else if bool_decide (event_type = Some "after") then
    let call_id := get (k_callId entry) EmptyString in
    match _before_events st !! call_id with
    | Some before =>
        match _parse_action before entry (action_index st) with
        | Some event =>
            (mkState (delete call_id (_before_events st)) (console_index st)
               (action_index st + 1) (screenshot_index st) (log_index st)
               (input_index st), [event])
        | None =>
            (mkState (delete call_id (_before_events st)) (console_index st)
               (action_index st) (screenshot_index st) (log_index st)
               (input_index st), [])
        end
    | None => (st, [])
    end
  else if bool_decide (event_type = Some "screencast-frame") then
    match _parse_screenshot entry (screenshot_index st) with
    | Some event =>
        (mkState (_before_events st) (console_index st) (action_index st)
           (screenshot_index st + 1) (log_index st) (input_index st), [event])
    | None => (st, [])
    end
  else if bool_decide (event_type = Some "log") then
    match _parse_log entry (log_index st) with
    | Some event =>
        (mkState (_before_events st) (console_index st) (action_index st)
           (screenshot_index st) (log_index st + 1) (input_index st), [event])
    | None => (st, [])
    end
  else if bool_decide (event_type = Some "input") then
    match _parse_input entry (input_index st) with
    | Some event =>
        (mkState (_before_events st) (console_index st) (action_index st)
           (screenshot_index st) (log_index st) (input_index st + 1), [event])
    | None => (st, [])
    end
  else (st, []).

(** The loop over a stream, from a given state. *)
Fixpoint run (st : state) (entries : list Entry) : state * list Event :=
  match entries with
  | [] => (st, [])
  | entry :: rest =>
      let '(st1, out1) := step st entry in
      let '(st2, out2) := run st1 rest in
      (st2, out1 ++ out2)
  end.

(** [BrowserTraceParser(archive).parse()], run to exhaustion. *)
Definition parse (archive : TraceArchive) : list Event :=
  (run init (iter_browser_trace archive)).2.

End BrowserTraceParser.

(** ** Test-run parser ([parsers/test_trace.py]) *)

Module TestTraceParser.

Record state : Type := mkState {
  _before_events : gmap string Entry;
  action_index : Z;
  error_index : Z
}.

Definition init : state := mkState ∅ 0 0.

(** The key of a span half: [stepId] when it is a non-empty string, else
    [callId], else the empty string. *)
Definition step_id_of (entry : Entry) : string :=
  str_or (k_stepId entry) (get (k_callId entry) EmptyString).

Definition _parse_test_action (before after : Entry) (index : Z)
    : option Event :=
  let method := get (k_method before) EmptyString in
  let title := get (k_title before) EmptyString in
  let params := get (k_params before) [] in
  let start_time := get (k_startTime before) 0%Q in
  let end_time := get (k_endTime after) start_time in
  let duration_ms := (end_time - start_time)%Q in
  let action_event :=
    mkActionEvent method None params
      (str_or (k_callId before) (get (k_stepId before) EmptyString))
      EmptyString duration_ms title None None None in
  Some (mkEvent index (Finite start_time) Action (Some method)
          "test.trace" (RawPair before after)
          None None (Some action_event) None None).

(** [ANSI_ESCAPE.sub("", text)] for the pattern [\x1b\[[0-9;]*m]: the
    length of the match that starts at the head of [s], if there is one ... *)
Fixpoint sgr_length (s : pystr) : option nat :=
  match s with
  | [] => None
  | c :: rest =>
      if ((48 <=? c) && (c <=? 57) || (c =? 59))%N then S <$> sgr_length rest
      else if (c =? 109)%N then Some 1%nat
      else None
  end.

Definition escape_length (s : pystr) : option nat :=
  match s with
  | 27%N :: 91%N :: rest => (λ n, S (S n)) <$> sgr_length rest
  | _ => None
  end.

(** ... and the text without the matches, found from left to right; [skip]
    counts the characters of the current match still to drop. *)
Fixpoint ansi_sub_from (skip : nat) (s : pystr) : pystr :=
  match s with
  | [] => []
  | c :: rest =>
      match skip with
      | S k => ansi_sub_from k rest
      | O =>
          match escape_length s with
          | Some n => ansi_sub_from (pred n) rest
          | None => c :: ansi_sub_from 0 rest
          end
      end
  end.

Definition ANSI_ESCAPE_sub (text : pystr) : pystr := ansi_sub_from 0 text.

(** [str.isspace] of one character. *)
Definition is_space (c : N) : bool :=
  ((9 <=? c) && (c <=? 13) || (28 <=? c) && (c <=? 32)
   || (c =? 133) || (c =? 160) || (c =? 5760)
   || (8192 <=? c) && (c <=? 8202)
   || (c =? 8232) || (c =? 8233) || (c =? 8239) || (c =? 8287)
   || (c =? 12288))%N.

Fixpoint lstrip (s : pystr) : pystr :=
  match s with
  | c :: rest => if is_space c then lstrip rest else s
  | [] => []
  end.

(** [s.strip()] *)
Definition strip (s : pystr) : pystr := rev (lstrip (rev (lstrip s))).

(** [s.split("\n")] *)
Fixpoint split_lines (s : pystr) : list pystr :=
  match s with
  | [] => [[]]
  | c :: rest =>
      match split_lines rest with
      | line :: lines =>
          if (c =? 10)%N then [] :: line :: lines else (c :: line) :: lines
      | [] => [[c]]
      end
  end.

Fixpoint starts_with (prefix s : pystr) : bool :=
  match prefix, s with
  | [], _ => true
  | p :: prefix', c :: s' => (p =? c)%N && starts_with prefix' s'
  | _ :: _, [] => false
  end.

Definition _parse_assertion (message : pystr) : option pystr * option pystr :=
  foldl (λ '(expected, received) raw_line,
           let stripped := strip raw_line in
           if starts_with (codepoints "Expected:") stripped
           then (Some (strip (drop 9 stripped)), received)
           else if starts_with (codepoints "Received:") stripped
           then (expected, Some (strip (drop 9 stripped)))
           else (expected, received))
    (None, None) (split_lines message).

Definition _parse_error (entry : Entry) (index : Z) : option Event :=
  let raw_message := get (k_message entry) [] in
  let message := ANSI_ESCAPE_sub raw_message in
  let stack := get (k_stack entry) [] in
  let '(expected, received) := _parse_assertion message in
  let error_event := mkErrorEvent message stack "test.trace" expected received in
  Some (mkEvent index PosInf Error (Some "test_failure")
          "test.trace" (RawEntry entry)
          None None None (Some error_event) None).

Definition step (st : state) (entry : Entry) : state * list Event :=
  let event_type := k_type entry in
  if bool_decide (event_type = Some "before") then
    let step_id := step_id_of entry in
    if truthy step_id then
      (mkState (<[step_id := entry]> (_before_events st)) (action_index st)
         (error_index st), [])
    else (st, [])
  else if bool_decide (event_type = Some "after") then
    let step_id := step_id_of entry in
    match _before_events st !! step_id with
    | Some before =>
        match _parse_test_action before entry (action_index st) with
        | Some event =>
            (mkState (delete step_id (_before_events st))
               (action_index st + 1) (error_index st), [event])
        | None =>
            (mkState (delete step_id (_before_events st))
               (action_index st) (error_index st), [])
        end
    | None => (st, [])
    end
  else if bool_decide (event_type = Some "error") then
    match _parse_error entry (error_index st) with
    | Some event =>
        (mkState (_before_events st) (action_index st) (error_index st + 1),
         [event])
    | None => (st, [])
    end
  else (st, []).

Fixpoint run (st : state) (entries : list Entry) : state * list Event :=
  match entries with
  | [] => (st, [])
  | entry :: rest =>
      let '(st1, out1) := step st entry in
      let '(st2, out2) := run st1 rest in
      (st2, out1 ++ out2)
  end.

Definition parse (archive : TraceArchive) : list Event :=
  (run init (iter_test_trace archive)).2.

(** The loop of [parse_errors_only], from a given counter. *)
Fixpoint errors_only_from (error_index : Z) (entries : list Entry) : list Event :=
  match entries with
  | [] => []
  | entry :: rest =>
      if bool_decide (k_type entry = Some "error") then
        match _parse_error entry error_index with
        | Some event => event :: errors_only_from (error_index + 1) rest
        | None => errors_only_from error_index rest
        end
      else errors_only_from error_index rest
  end.

Definition parse_errors_only (archive : TraceArchive) : list Event :=
  errors_only_from 0 (iter_test_trace archive).

Definition has_errors (archive : TraceArchive) : bool :=
  existsb (λ entry, bool_decide (k_type entry = Some "error"))
    (iter_test_trace archive).

Definition get_first_error (archive : TraceArchive) : option Event :=
  head (parse_errors_only archive).

End TestTraceParser.

(** ** Network parser ([parsers/network.py]) *)

Module NetworkParser.

(** [_get_trace_start_epoch]: the archive's wall-clock start, asked for at
    the first use and kept by the parser.  The archive memoizes the context
    record it is read from, so every use sees the same value. *)
Definition _get_trace_start_epoch (archive : TraceArchive) : Q :=
  (get_wall_time archive).1.

Definition _parse_timestamp (archive : TraceArchive) (snapshot : Snapshot) : Q :=
  match s_monotonicTime snapshot with
  | Some t => t
  | None =>
      match s_startedDateTime snapshot with
      | Some epoch_ms => (epoch_ms - _get_trace_start_epoch archive)%Q
      | None => 0%Q
      end
  end.

Definition _parse_entry (archive : TraceArchive) (entry : NetEntry) (index : Z)
    : option Event :=
  if negb (bool_decide (n_type entry = Some "resource-snapshot")) then None
  else
    let snapshot := get (n_snapshot entry) empty_snapshot in
    let timestamp_ms := _parse_timestamp archive snapshot in
    let duration_ms := get (s_time snapshot) 0%Q in
    let method := get (s_method snapshot) "GET" in
    let network_event :=
      mkNetworkEvent method (get (s_url snapshot) EmptyString)
        (get (s_status snapshot) 0) (get (s_statusText snapshot) EmptyString)
        duration_ms in
    Some (mkEvent index (Finite timestamp_ms) Network (Some method)
            "0-trace.network" (RawNet entry)
            (Some network_event) None None None None).

Fixpoint run (archive : TraceArchive) (index : Z) (entries : list NetEntry)
    : list Event :=
  match entries with
  | [] => []
  | entry :: rest =>
      match _parse_entry archive entry index with
      | Some event => event :: run archive (index + 1) rest
      | None => run archive index rest
      end
  end.

Definition parse (archive : TraceArchive) : list Event :=
  run archive 0 (iter_network archive).

(** An element of a [headers] or [queryString] list. *)
Record Pair : Type := mkPair {
  p_name : option string;
  p_value : option string
}.

(** The dict comprehension of [_headers_to_dict] and [_query_to_dict]: the
    pairs are entered in order, a later one replacing an earlier one of the
    same name. *)
Definition _headers_to_dict (headers : list Pair) : gmap string string :=
  foldl (λ d h,
           if truthy (get (p_name h) EmptyString)
           then <[get (p_name h) EmptyString := get (p_value h) EmptyString]> d
           else d)
    ∅ headers.

Definition _query_to_dict (query : list Pair) : gmap string string :=
  foldl (λ d q,
           if truthy (get (p_name q) EmptyString)
           then <[get (p_name q) EmptyString := get (p_value q) EmptyString]> d
           else d)
    ∅ query.

End NetworkParser.

(** ** The event index ([index.py]) *)

(** The sort key [(e.timestamp_ms, e.event_type)] and Python's [<] on such
    pairs: the first components decide unless they are [==]. *)
Definition sort_key (e : Event) : pyfloat * EventType :=
  (timestamp_ms e, event_type e).

Definition key_ltb (a b : pyfloat * EventType) : bool :=
  if Float.eqb a.1 b.1
  then str_ltb (type_name a.2) (type_name b.2)
  else Float.ltb a.1 b.1.


Record Summary : Type := mkSummary {
  total_events : nat;
  summary_duration_ms : pyfloat;
  event_counts : gmap string nat;
  summary_has_errors : bool;
  test_name : string;
  browser : string;
  viewport : Z * Z
}.

Module EventIndex.

Record t : Type := mkIndex {
  archive : TraceArchive;
  _events : list Event;
  _by_type : gmap string (list Event);
  _parsed : bool;
  _trace_start_ms : Q
}.

(** [EventIndex(archive)] *)
Definition init (archive : TraceArchive) : t := mkIndex archive [] ∅ false 0%Q.

(** The loop that fills [_by_type]. *)
Definition add_by_type (by_type : gmap string (list Event)) (event : Event)
    : gmap string (list Event) :=
  let name := type_name (event_type event) in
  let by_type :=
    match by_type !! name with
    | None => <[name := []]> by_type
    | Some _ => by_type
    end in
  alter (λ events, events ++ [event]) name by_type.

Definition _ensure_parsed (self : t) : t :=
  if _parsed self then self
  else
    let '(trace_start_ms, archive) := get_trace_start_time (archive self) in
    let all_events :=
      NetworkParser.parse archive
      ++ BrowserTraceParser.parse archive
      ++ TestTraceParser.parse archive in
    let all_events := sort_by key_ltb sort_key all_events in
    let all_events := imap (λ i event, set_index (Z.of_nat i) event) all_events in
    mkIndex archive all_events (foldl add_by_type ∅ all_events) true
      trace_start_ms.

Definition all (self : t) : list Event := _events (_ensure_parsed self).

Definition count (self : t) : nat := length (_events (_ensure_parsed self)).

Definition by_type (self : t) (event_type : string) : list Event :=
  default [] (_by_type (_ensure_parsed self) !! event_type).

Fixpoint in_range_scan (start_ms end_ms : pyfloat) (events : list Event)
    : list Event :=
  match events with
  | [] => []
  | event :: rest =>
      if Float.leb start_ms (timestamp_ms event)
         && Float.leb (timestamp_ms event) end_ms
      then event :: in_range_scan start_ms end_ms rest
      else if Float.gtb (timestamp_ms event) end_ms then []
      else in_range_scan start_ms end_ms rest
  end.

Definition in_range (self : t) (start_ms end_ms : pyfloat) : list Event :=
  in_range_scan start_ms end_ms (_events (_ensure_parsed self)).

Fixpoint after_scan (t_ms : pyfloat) (events : list Event) : list Event :=
  match events with
  | [] => []
  | event :: rest =>
      if Float.geb (timestamp_ms event) t_ms
      then event :: after_scan t_ms rest
      else after_scan t_ms rest
  end.

Definition after (self : t) (t_ms : pyfloat) : list Event :=
  after_scan t_ms (_events (_ensure_parsed self)).

Fixpoint before_scan (t_ms : pyfloat) (events : list Event) : list Event :=
  match events with
  | [] => []
  | event :: rest =>
      if Float.leb (timestamp_ms event) t_ms
      then event :: before_scan t_ms rest
      else []
  end.

Definition before (self : t) (t_ms : pyfloat) : list Event :=
  before_scan t_ms (_events (_ensure_parsed self)).

Definition get_by_index (self : t) (index : Z) : option Event :=
  let events := _events (_ensure_parsed self) in
  if (0 <=? index) && (index <? Z.of_nat (length events))
  then events !! Z.to_nat index
  else None.

Definition has_errors (self : t) : bool :=
  bool_decide (0 < length (default [] (_by_type (_ensure_parsed self) !! "error")))%nat.

Definition get_summary (self : t) : Summary :=
  let self := _ensure_parsed self in
  let finite_events :=
    List.filter (λ e, Float.neqb (timestamp_ms e) PosInf) (_events self) in
  let duration_ms :=
    match _events self with
    | [] => Finite 0
    | _ =>
        match head finite_events, last finite_events with
        | Some first, Some final =>
            Float.sub (timestamp_ms final) (timestamp_ms first)
        | _, _ => Finite 0
        end
    end in
  mkSummary (length (_events self)) duration_ms
    (length <$> _by_type self)
    (has_errors self)
    (get_test_name (archive self)).1
    (get_browser_name (archive self)).1
    (get_viewport (archive self)).1.




Definition count_by_type (self : t) (event_type : string) : nat :=
  length (default [] (_by_type (_ensure_parsed self) !! event_type)).

Definition network (self : t) : list Event := by_type self "network".
Definition console (self : t) : list Event := by_type self "console".
Definition actions (self : t) : list Event := by_type self "action".
Definition errors (self : t) : list Event := by_type self "error".
Definition screenshots (self : t) : list Event := by_type self "screenshot".

(** [min(first :: rest, key=key)]: the first element whose key no other
    element's key is below. *)
Fixpoint min_by {A} (key : A → pyfloat) (best : A) (rest : list A) : A :=
  match rest with
  | [] => best
  | x :: rest' =>
      min_by key (if Float.ltb (key x) (key best) then x else best) rest'
  end.

Definition closest_screenshot (self : t) (timestamp_ms0 : pyfloat)
    : option Event :=
  match screenshots self with
  | [] => None
  | first :: rest =>
      Some (min_by (λ e, Float.abs (Float.sub (timestamp_ms e) timestamp_ms0))
              first rest)
  end.

End EventIndex.


(** ** Helpers of the commands ([commands/events.py], [commands/errors.py]) *)

Module EventsCommand.

(** [_skip(iterable, n)] and [_take(iterable, n)], with the position [i] of
    [enumerate]. *)
Fixpoint skip_from {A} (i : Z) (items : list A) (n : Z) : list A :=
  match items with
  | [] => []
  | item :: rest =>
      if (i >=? n) then item :: skip_from (i + 1) rest n
      else skip_from (i + 1) rest n
  end.

Definition _skip {A} (items : list A) (n : Z) : list A := skip_from 0 items n.

Fixpoint take_from {A} (i : Z) (items : list A) (n : Z) : list A :=
  match items with
  | [] => []
  | item :: rest =>
      if (i >=? n) then [] else item :: take_from (i + 1) rest n
  end.

Definition _take {A} (items : list A) (n : Z) : list A := take_from 0 items n.

(** The offset and limit steps of [run]: an absent or zero argument is
    falsy and leaves the sequence as it is. *)
Definition paginate {A} (items : list A) (offset limit : option Z) : list A :=
  let items :=
    match offset with
    | Some n => if (n =? 0) then items else _skip items n
    | None => items
    end in
  match limit with
  | Some n => if (n =? 0) then items else _take items n
  | None => items
  end.

(** [text.split(",")] *)
Fixpoint split_comma (text : pystr) : list pystr :=
  match text with
  | [] => [[]]
  | c :: rest =>
      match split_comma rest with
      | part :: parts =>
          if (c =? 44)%N then [] :: part :: parts else (c :: part) :: parts
      | [] => [[c]]
      end
  end.

(** [_filter_events]: [type_arg], [after_arg] and [before_arg] are
    [args.type], [args.after] and [args.before]. *)
Definition _filter_events (index : EventIndex.t) (type_arg : option pystr)
    (after_arg before_arg : option pyfloat) : list Event :=
  let events :=
    match type_arg with
    | Some (c :: text) =>
        let types := TestTraceParser.strip <$> split_comma (c :: text) in
        List.filter
          (λ e, bool_decide (codepoints (type_name (event_type e)) ∈ types))
          (EventIndex.all index)
    | _ => EventIndex.all index
    end in
  let events :=
    match after_arg with
    | Some a => List.filter (λ e, Float.geb (timestamp_ms e) a) events
    | None => events
    end in
  match before_arg with
  | Some b => List.filter (λ e, Float.leb (timestamp_ms e) b) events
  | None => events
  end.

End EventsCommand.

Module ErrorsCommand.

(** The approximate error time of [_get_error_context] and of
    [_screenshot_at_error]: the timestamp of the last event of [all()] whose
    timestamp is not the infinite sentinel, if there is one. *)
Definition error_time (index : EventIndex.t) : option pyfloat :=
  let all_events := EventIndex.all index in
  let finite_events :=
    List.filter (λ e, Float.neqb (timestamp_ms e) PosInf) all_events in
  timestamp_ms <$> last finite_events.

(** [recent_console] of [_get_error_context]. *)
Definition recent_console (index : EventIndex.t) (error_time : pyfloat)
    : list Event :=
  List.filter
    (λ e, Float.leb (Float.sub error_time (Finite 2000)) (timestamp_ms e)
          && Float.leb (timestamp_ms e) error_time)
    (EventIndex.console index).

(** [items[-n:]] for a positive [n]: the last [n] items, all of them when
    there are fewer. *)
Definition last_n {A} (n : nat) (items : list A) : list A :=
  drop (length items - n) items.

(** [recent_actions] and [recent_network] of [_get_error_context]. *)
Definition recent_actions (index : EventIndex.t) : list Event :=
  let all_actions :=
    List.filter (λ e, Float.neqb (timestamp_ms e) PosInf)
      (EventIndex.actions index) in
  last_n 5 all_actions.

Definition recent_network (index : EventIndex.t) : list Event :=
  last_n 5 (EventIndex.network index).

(** [test_failure] of [run]: the first of [index.errors()], if any. *)
Definition test_failure (index : EventIndex.t) : option Event :=
  head (EventIndex.errors index).

End ErrorsCommand.

(** ** The actions command ([commands/actions.py]) *)

Module ActionsCommand.

(** [_get_single]: the event that is written, [None] where the command
    reports the index out of range. *)
Definition _get_single (index : EventIndex.t) (n : Z) : option Event :=
  let action_events := EventIndex.actions index in
  if (n <? 0) || (n >=? Z.of_nat (length action_events)) then None
  else action_events !! Z.to_nat n.

(** [e.action and e.action.error] *)
Definition failed (e : Event) : bool :=
  match action e with
  | Some act =>
      match action_error act with
      | Some text => truthy text
      | None => false
      end
  | None => false
  end.

(** [_filter_actions] when [--action], [--selector] and [--selector-regex]
    are not given: the [--failed] flag and the two time bounds. *)
Definition _filter_actions (index : EventIndex.t) (failed_arg : bool)
    (after_arg before_arg : option pyfloat) : list Event :=
  let events := EventIndex.actions index in
  let events := if failed_arg then List.filter failed events else events in
  let events :=
    match after_arg with
    | Some t => List.filter (λ e, Float.geb (timestamp_ms e) t) events
    | None => events
    end in
  match before_arg with
  | Some t => List.filter (λ e, Float.leb (timestamp_ms e) t) events
  | None => events
  end.

End ActionsCommand.

(** ** Vocabulary of the properties *)

Definition call_id_of (entry : Entry) : string :=
  get (k_callId entry) EmptyString.

(** The chronological order of the index: an earlier timestamp, or the same
    timestamp and a type name that is not greater. *)
Definition chron_le (e1 e2 : Event) : Prop :=
  Float.ltb (timestamp_ms e1) (timestamp_ms e2) = true
  ∨ (Float.eqb (timestamp_ms e1) (timestamp_ms e2) = true
     ∧ str_leb (type_name (event_type e1)) (type_name (event_type e2)) = true).

Definition has_type (ty : EventType) (e : Event) : bool :=
  bool_decide (event_type e = ty).

Definition finite_stamp (e : Event) : bool := Float.is_finite (timestamp_ms e).

Definition infinite_stamp (e : Event) : bool :=
  match timestamp_ms e with PosInf => true | _ => false end.

(** The zip member a resource reference names. *)
Definition resource_name (sha1_or_path : string) : string :=
  if startswith "resources/" sha1_or_path then sha1_or_path
  else "resources/" ++ sha1_or_path.

(** The reference implementation of a range query: keep the events of the
    sequence whose timestamp lies between the bounds. *)
Definition naive_in_range (events : list Event) (start_ms end_ms : pyfloat)
    : list Event :=
  List.filter (λ ev, Float.leb start_ms (timestamp_ms ev)
                     && Float.leb (timestamp_ms ev) end_ms) events.

(** Distance of an event from a target time, and the test that it lies in
    the window. *)
Definition distance (t : pyfloat) (e : Event) : pyfloat :=
  Float.abs (Float.sub (timestamp_ms e) t).





Definition count_of (ty : EventType) (events : list Event) : nat :=
  length (List.filter (has_type ty) events).

(** [entry] is a span half of kind [kind] ("before" or "after") for the
    identifier [id] under the keying [key]. *)
Definition half_for (kind : string) (key : Entry → string) (id : string)
    (entry : Entry) : bool :=
  is_type kind entry && bool_decide (key entry = id).

(** [ev] is a reconstructed span whose [before] half is keyed [id]. *)
Definition span_for (key : Entry → string) (id : string) (ev : Event) : bool :=
  match raw ev with
  | RawPair before _ => has_type Action ev && bool_decide (key before = id)
  | _ => false
  end.

(** An action event whose payload names the call identifier [id]. *)
Definition action_for (id : string) (ev : Event) : bool :=
  match action ev with
  | Some act => bool_decide (call_id act = id)
  | None => false
  end.

(** In a sorted list [x] may stand before [y]: the key of [y] is not below
    that of [x]. *)
Definition may_precede {A K} (lt : K → K → bool) (key : A → K) (x y : A) : Prop :=
  lt (key y) (key x) = false.

Definition stamp_le (e1 e2 : Event) : Prop :=
  Float.leb (timestamp_ms e1) (timestamp_ms e2) = true.

(** What every parser emits: a finite timestamp on an event that is not an
    error, or the infinite sentinel on an error of the test stream. *)
Definition event_ok (e : Event) : bool :=
  match timestamp_ms e with
  | Finite _ => negb (has_type Error e)
  | PosInf => has_type Error e && bool_decide (source_file e = "test.trace")
  | _ => false
  end.

(** The events of the three parsers, in emission order, as [_ensure_parsed]
    collects them. *)
Definition parsed_events (a : TraceArchive) : list Event :=
  let a := (get_trace_start_time a).2 in
  NetworkParser.parse a ++ BrowserTraceParser.parse a ++ TestTraceParser.parse a.

(** Every pending record is filed under its own key. *)
Definition pending_keyed (key : Entry → string) (m : gmap string Entry) : Prop :=
  ∀ k b, m !! k = Some b → key b = k.

(** An event with its [index] cleared, to compare events up to their
    position. *)
Definition unindexed (e : Event) : Event := set_index 0 e.

(** The events that sort under the same key: timestamp [==] [t] and type
    [ty]. *)
Definition same_key (t : pyfloat) (ty : EventType) (e : Event) : bool :=
  Float.eqb (timestamp_ms e) t && has_type ty e.

(** What an event keeps of the record it was read from. *)
Definition stamped (e : Event) : pyfloat * Raw := (timestamp_ms e, raw e).

(** Events numbered [c], [c + 1], ... in their order; [dense] from 0. *)
Definition numbered_from (c : Z) (l : list Event) : Prop :=
  index <$> l = (λ i, c + Z.of_nat i) <$> seq 0 (length l).

Definition dense (l : list Event) : Prop := numbered_from 0 l.

(** The counter that numbers the events of a type in each span parser. *)
Definition counter_rt (ty : EventType) (st : BrowserTraceParser.state) : Z :=
  match ty with
  | Console => BrowserTraceParser.console_index st
  | Action => BrowserTraceParser.action_index st
  | Screenshot => BrowserTraceParser.screenshot_index st
  | Log => BrowserTraceParser.log_index st
  | Input => BrowserTraceParser.input_index st
  | _ => 0
  end.

Definition counter_tt (ty : EventType) (st : TestTraceParser.state) : Z :=
  match ty with
  | Action => TestTraceParser.action_index st
  | Error => TestTraceParser.error_index st
  | _ => 0
  end.

(** A [before] record that the parser keeps: one with a non-empty key. *)
Definition opens_span (key : Entry → string) (entry : Entry) : bool :=
  is_type "before" entry && truthy (key entry).

(** A colour sequence [ESC [ params m], its parameters digits and
    semicolons. *)
Definition is_sgr_param (c : N) : bool :=
  ((48 <=? c) && (c <=? 57) || (c =? 59))%N.

Definition sgr (params : pystr) : pystr := 27%N :: 91%N :: params ++ [109%N].


Definition is_error_record (entry : Entry) : bool :=
  bool_decide (k_type entry = Some "error").

(** Every event carries the payload of its type and no other, and names the
    stream it came from; a screenshot names a non-empty hash and the
    resource path made from it. *)
Definition payload_ok (e : Event) : Prop :=
  match event_type e, network e, console e, action e, error e, screenshot e with
  | Network, Some _, None, None, None, None =>
      source_file e = "0-trace.network"
  | Console, None, Some _, None, None, None =>
      source_file e = "0-trace.trace"
  | Action, None, None, Some _, None, None =>
      source_file e = "0-trace.trace" ∨ source_file e = "test.trace"
  | Error, None, None, None, Some _, None =>
      source_file e = "test.trace"
  | Screenshot, None, None, None, None, Some s =>
      source_file e = "0-trace.trace"
      ∧ truthy (sha1 s) = true
      ∧ resource_path s = String.append "resources/" (sha1 s)
  | Log, None, None, None, None, None
  | Input, None, None, None, None, None =>
      source_file e = "0-trace.trace"
  | _, _, _, _, _, _ => False
  end.

(** ** Sample inputs *)

Definition before_X : Entry :=
  mkEntry (Some "before") (Some "X") None (Some "click") None None None
          (Some 100%Q) None None None None None None None None None None None
          None None None None None None
          None None None None.

Definition after_X : Entry :=
  mkEntry (Some "after") (Some "X") None None None None None
          None (Some 150%Q) None None None None None None None None None None
          None None None None None None
          None None None None.

Definition input_entry : Entry :=
  mkEntry (Some "input") None None None None None None None None None None
          None None None None None None None None None None None None None None
          None None None None.

Definition console_at (t : Q) : Entry :=
  mkEntry (Some "console") None None None None None None None None None None
          None (Some "log") (Some "hello") None (Some t) None None None None
          None None None None None
          None None None None.

Definition error_entry : Entry :=
  mkEntry (Some "error") None None None None None None None None None None
          None None None None None None None None None
          (Some (codepoints "boom")) None None None None None None None None.

Definition step_before_S : Entry :=
  mkEntry (Some "before") None (Some "S") None None None None
          (Some 5%Q) None None None None None None None None None None None
          None None None None None None
          None None None None.

Definition sample_archive : TraceArchive :=
  open_archive ∅
    [console_at 30; before_X; input_entry; after_X; console_at 7]
    [error_entry; step_before_S]
    [].

Definition span_archive : TraceArchive :=
  open_archive ∅ [before_X; after_X] [] [].

Definition frame_at (t : Q) (hash : string) : Entry :=
  mkEntry (Some "screencast-frame") None None None None None None None None
          None None None None None None None (Some hash) (Some 800) (Some 600)
          (Some t) None None None None None None None None None.

Definition frames_archive : TraceArchive :=
  open_archive ∅
    [frame_at 10 "a"; console_at 12; frame_at 20 "b"; frame_at 30 "c";
     console_at 40]
    [error_entry]
    [].

(** * Properties *)

(** ** Order facts on floats *)

Ltac float_cases :=
  repeat match goal with
         | a : pyfloat |- _ => destruct a
         end;
  cbn in *; try done.

Ltac qcmp :=
  repeat match goal with
         | |- context [(?x ?= ?y)%Q] => destruct (Qcompare_spec x y)
         | H : context [(?x ?= ?y)%Q] |- _ => destruct (Qcompare_spec x y)
         end;
  cbn in *; try done; try lra.

Lemma leb_refl a : Float.is_nan a = false → Float.leb a a = true.
Proof. unfold Float.leb. float_cases. intros _. qcmp. Qed.

Lemma leb_trans a b c :
  Float.leb a b = true → Float.leb b c = true → Float.leb a c = true.
Proof. unfold Float.leb. float_cases; qcmp. Qed.

Lemma leb_total a b :
  Float.is_nan a = false → Float.is_nan b = false →
  Float.leb a b = true ∨ Float.leb b a = true.
Proof. unfold Float.leb. float_cases; intros _ _; qcmp; auto. Qed.

Lemma ltb_leb a b : Float.ltb a b = true → Float.leb a b = true.
Proof. unfold Float.ltb, Float.leb. float_cases; qcmp. Qed.

Lemma eqb_leb a b : Float.eqb a b = true → Float.leb a b = true.
Proof. unfold Float.eqb, Float.leb. float_cases; qcmp. Qed.

Lemma eqb_sym a b : Float.eqb a b = Float.eqb b a.
Proof. unfold Float.eqb. float_cases; qcmp. Qed.

Lemma ltb_asym a b : Float.ltb a b = true → Float.ltb b a = false.
Proof. unfold Float.ltb. float_cases; qcmp. Qed.

Lemma ltb_not_eqb a b : Float.ltb a b = true → Float.eqb b a = false.
Proof. unfold Float.ltb, Float.eqb. float_cases; qcmp. Qed.

Lemma not_ltb_leb a b :
  Float.is_nan a = false → Float.is_nan b = false →
  Float.ltb b a = false → Float.leb a b = true.
Proof. unfold Float.ltb, Float.leb. float_cases; intros _ _; qcmp. Qed.

Lemma leb_not_gtb a b : Float.leb a b = true → Float.gtb a b = false.
Proof. unfold Float.gtb, Float.ltb, Float.leb. float_cases; qcmp. Qed.

Lemma not_eqb_not_ltb a b :
  Float.is_nan a = false → Float.is_nan b = false →
  Float.eqb b a = false → Float.ltb b a = false → Float.ltb a b = true.
Proof. unfold Float.ltb, Float.eqb. float_cases; intros _ _; qcmp. Qed.

Lemma stamp_not_nan a : Float.is_stamp a = true → Float.is_nan a = false.
Proof. by destruct a. Qed.

(** Names of event types are ordered as their strings. *)
Lemma type_name_inj t1 t2 : type_name t1 = type_name t2 → t1 = t2.
Proof. by destruct t1, t2. Qed.

Lemma str_ltb_asym a b : str_ltb a b = true → str_ltb b a = false.
Proof.
  unfold str_ltb. rewrite (String.compare_antisym b a).
  by destruct (String.compare a b).
Qed.

Lemma not_str_ltb_leb a b : str_ltb b a = false → str_leb a b = true.
Proof.
  unfold str_ltb, str_leb. rewrite (String.compare_antisym b a).
  by destruct (String.compare a b).
Qed.

Lemma key_ltb_asym a b : key_ltb a b = true → key_ltb b a = false.
Proof.
  unfold key_ltb. rewrite (eqb_sym b.1 a.1).
  destruct (Float.eqb a.1 b.1) eqn:E.
  - apply str_ltb_asym.
  - apply ltb_asym.
Qed.

(** ** The sort *)

Section SortFacts.
Context {A K : Type} (lt : K → K → bool) (key : A → K).
Hypothesis lt_asym : ∀ a b, lt a b = true → lt b a = false.

Lemma insert_by_Permutation x l : insert_by lt key x l ≡ₚ x :: l.
Proof.
  induction l as [|y l IH]; cbn; [done|].
  destruct (lt (key y) (key x)); [|done].
  rewrite IH. apply Permutation_swap.
Qed.

Lemma sort_by_Permutation l : sort_by lt key l ≡ₚ l.
Proof.
  induction l as [|x l IH]; cbn; [done|].
  unfold sort_by in IH. by rewrite insert_by_Permutation, IH.
Qed.

Lemma insert_by_HdRel z x l :
  may_precede lt key z x → HdRel (may_precede lt key) z l →
  HdRel (may_precede lt key) z (insert_by lt key x l).
Proof.
  intros Hzx Hzl. destruct l as [|y l]; cbn.
  - by constructor.
  - destruct (lt (key y) (key x)); constructor; [|done].
    by inversion Hzl.
Qed.

Lemma insert_by_Sorted x l :
  Sorted (may_precede lt key) l →
  Sorted (may_precede lt key) (insert_by lt key x l).
Proof.
  induction 1 as [|y l Hs IH Hhd]; cbn.
  - by repeat constructor.
  - destruct (lt (key y) (key x)) eqn:E.
    + constructor; [done|]. apply insert_by_HdRel; [|done].
      unfold may_precede. by apply lt_asym.
    + constructor; [by constructor|]. by constructor.
Qed.

Lemma sort_by_Sorted l : Sorted (may_precede lt key) (sort_by lt key l).
Proof.
  induction l as [|x l IH]; cbn; [constructor|].
  by apply insert_by_Sorted.
Qed.
End SortFacts.

Lemma Sorted_weaken {A} (R1 R2 : relation A) (P : A → Prop) l :
  (∀ x y, P x → P y → R1 x y → R2 x y) →
  Forall P l → Sorted R1 l → Sorted R2 l.
Proof.
  intros HR HP Hs. induction Hs as [|x l Hs IH Hhd]; [constructor|].
  inversion HP as [|? ? Hx Hl]; subst. constructor; [by apply IH|].
  destruct Hhd as [|y l' Hxy]; constructor.
  inversion Hl; subst. by apply HR.
Qed.

Lemma Sorted_of_keys {A B} (f : A → B) (R : relation B) l :
  Sorted R (f <$> l) → Sorted (λ x y, R (f x) (f y)) l.
Proof.
  induction l as [|x l IH]; cbn; [constructor|].
  intros Hs. inversion Hs as [|? ? Hs' Hhd]; subst.
  constructor; [by apply IH|].
  destruct l; cbn in *; constructor. by inversion Hhd.
Qed.

Lemma Sorted_StronglySorted_on {A} (R : relation A) (P : A → Prop) l :
  (∀ x y z, P x → P y → P z → R x y → R y z → R x z) →
  Forall P l → Sorted R l → StronglySorted R l.
Proof.
  intros Htrans HP Hs. induction Hs as [|x l Hs IH Hhd]; [constructor|].
  inversion HP as [|? ? Hx Hl]; subst.
  specialize (IH Hl). constructor; [done|].
  destruct Hhd as [|y l' Hxy]; [constructor|].
  inversion IH as [|? ? _ Hy]; subst. inversion Hl as [|? ? Py Pl']; subst.
  constructor; [done|].
  rewrite Forall_forall in *. intros z Hz.
  apply (Htrans x y z); auto.
Qed.

Lemma filter_none {A} (f : A → bool) l :
  Forall (λ x, f x = false) l → List.filter f l = [].
Proof.
  induction 1 as [|x l Hx _ IH]; cbn; [done|]. by rewrite Hx.
Qed.

(** ** What the parsers emit *)

Lemma browser_step_ok st entry :
  Forall (λ e, event_ok e = true) (BrowserTraceParser.step st entry).2.
Proof.
  unfold BrowserTraceParser.step.
  repeat case_bool_decide; cbn;
    repeat match goal with
           | |- context [match ?x with _ => _ end] => destruct x eqn:?; cbn
           end;
    repeat constructor.
  unfold BrowserTraceParser._parse_screenshot in *.
  destruct (negb _); [done|]. by simplify_eq.
Qed.

Lemma browser_run_ok entries : ∀ st,
  Forall (λ e, event_ok e = true) (BrowserTraceParser.run st entries).2.
Proof.
  induction entries as [|entry rest IH]; intros st; cbn; [constructor|].
  pose proof (browser_step_ok st entry) as Hs.
  destruct (BrowserTraceParser.step st entry) as [st1 out1].
  specialize (IH st1).
  destruct (BrowserTraceParser.run st1 rest) as [st2 out2]; cbn in *.
  by apply Forall_app.
Qed.

Lemma test_step_ok st entry :
  Forall (λ e, event_ok e = true) (TestTraceParser.step st entry).2.
Proof.
  unfold TestTraceParser.step, TestTraceParser._parse_error.
  destruct (TestTraceParser._parse_assertion _).
  repeat case_bool_decide; cbn;
    repeat match goal with
           | |- context [match ?x with _ => _ end] => destruct x eqn:?; cbn
           end;
    repeat constructor.
Qed.

Lemma test_run_ok entries : ∀ st,
  Forall (λ e, event_ok e = true) (TestTraceParser.run st entries).2.
Proof.
  induction entries as [|entry rest IH]; intros st; cbn; [constructor|].
  pose proof (test_step_ok st entry) as Hs.
  destruct (TestTraceParser.step st entry) as [st1 out1].
  specialize (IH st1).
  destruct (TestTraceParser.run st1 rest) as [st2 out2]; cbn in *.
  by apply Forall_app.
Qed.

Lemma network_run_ok a entries : ∀ i,
  Forall (λ e, event_ok e = true) (NetworkParser.run a i entries).
Proof.
  induction entries as [|entry rest IH]; intros i; cbn; [constructor|].
  unfold NetworkParser._parse_entry.
  destruct (negb _); cbn; [apply IH|].
  constructor; [done|apply IH].
Qed.

Lemma parsed_events_ok a : Forall (λ e, event_ok e = true) (parsed_events a).
Proof.
  unfold parsed_events. repeat apply Forall_app_2.
  - apply network_run_ok.
  - apply browser_run_ok.
  - apply test_run_ok.
Qed.

Lemma event_ok_stamp e : event_ok e = true → Float.is_stamp (timestamp_ms e) = true.
Proof. unfold event_ok. by destruct (timestamp_ms e). Qed.

Lemma event_ok_set_index i e : event_ok (set_index i e) = event_ok e.
Proof. done. Qed.

(** ** The built index *)

Lemma all_init a :
  EventIndex.all (EventIndex.init a)
  = imap (λ i e, set_index (Z.of_nat i) e)
      (sort_by key_ltb sort_key (parsed_events a)).
Proof.
  unfold EventIndex.all, EventIndex._ensure_parsed, parsed_events; cbn.
  by destruct (get_trace_start_time a).
Qed.


Lemma by_type_init a :
  EventIndex._by_type (EventIndex._ensure_parsed (EventIndex.init a))
  = foldl EventIndex.add_by_type ∅ (EventIndex.all (EventIndex.init a)).
Proof.
  unfold EventIndex.all, EventIndex._ensure_parsed; cbn.
  by destruct (get_trace_start_time a).
Qed.

Lemma all_keys a :
  sort_key <$> EventIndex.all (EventIndex.init a)
  = sort_key <$> sort_by key_ltb sort_key (parsed_events a).
Proof.
  rewrite all_init, fmap_imap.
  rewrite <- (imap_const sort_key). by apply imap_ext.
Qed.

Lemma all_ok a : Forall (λ e, event_ok e = true) (EventIndex.all (EventIndex.init a)).
Proof.
  rewrite all_init. apply Forall_forall. intros e He.
  apply elem_of_lookup_imap_1 in He as (i & y & -> & Hy).
  rewrite event_ok_set_index.
  pose proof (parsed_events_ok a) as Hok.
  rewrite <- (sort_by_Permutation key_ltb sort_key) in Hok.
  rewrite Forall_forall in Hok. apply Hok. by eapply list_elem_of_lookup_2.
Qed.

Lemma all_Permutation a :
  timestamp_ms <$> EventIndex.all (EventIndex.init a)
  ≡ₚ timestamp_ms <$> parsed_events a.
Proof.
  transitivity (fst <$> (sort_key <$> EventIndex.all (EventIndex.init a))).
  { by rewrite <- list_fmap_compose. }
  rewrite all_keys, <- list_fmap_compose.
  by rewrite (sort_by_Permutation key_ltb sort_key).
Qed.

Lemma key_order_chron e1 e2 :
  event_ok e1 = true → event_ok e2 = true →
  key_ltb (sort_key e2) (sort_key e1) = false → chron_le e1 e2.
Proof.
  intros H1%event_ok_stamp%stamp_not_nan H2%event_ok_stamp%stamp_not_nan.
  unfold key_ltb, chron_le; cbn.
  rewrite (eqb_sym (timestamp_ms e1)).
  destruct (Float.eqb (timestamp_ms e2) (timestamp_ms e1)) eqn:E; intros Hlt.
  - right. split; [done|]. by apply not_str_ltb_leb.
  - left. by apply not_eqb_not_ltb.
Qed.

Lemma chron_stamp_le e1 e2 : chron_le e1 e2 → stamp_le e1 e2.
Proof.
  unfold chron_le, stamp_le. intros [H|[H _]]; [by apply ltb_leb|by apply eqb_leb].
Qed.

Lemma all_Sorted a : Sorted chron_le (EventIndex.all (EventIndex.init a)).
Proof.
  eapply (Sorted_weaken _ _ (λ e, event_ok e = true)); [|apply all_ok|].
  { intros x y Hx Hy H. apply key_order_chron; [done..|exact H]. }
  apply (Sorted_of_keys sort_key (λ kx ky, key_ltb ky kx = false)).
  rewrite all_keys.
  apply (Sorted_fmap _ (may_precede key_ltb sort_key)); [done|].
  apply sort_by_Sorted, key_ltb_asym.
Qed.

Lemma all_StronglySorted a :
  StronglySorted stamp_le (EventIndex.all (EventIndex.init a)).
Proof.
  eapply (Sorted_StronglySorted_on _ (λ _, True)).
  - intros x y z _ _ _. apply leb_trans.
  - by apply Forall_forall.
  - eapply (Sorted_weaken _ _ (λ _, True)); [|by apply Forall_forall|apply all_Sorted].
    intros x y _ _. apply chron_stamp_le.
Qed.

(** ** Scans over a chronological list *)

Lemma past_end_stays_past e x y :
  Float.ltb e x = true → Float.leb x y = true → Float.leb y e = false.
Proof. unfold Float.ltb, Float.leb. float_cases; qcmp. Qed.

Lemma past_bound_stays_past t x y :
  Float.leb x t = false → Float.leb x y = true → Float.leb y t = false.
Proof. unfold Float.leb. float_cases; qcmp. Qed.

Lemma in_range_scan_filter s e events :
  StronglySorted stamp_le events →
  EventIndex.in_range_scan s e events
  = List.filter (λ ev, Float.leb s (timestamp_ms ev)
                       && Float.leb (timestamp_ms ev) e) events.
Proof.
  induction 1 as [|x l Hs IH Hx]; cbn; [done|].
  destruct (Float.leb s (timestamp_ms x) && Float.leb (timestamp_ms x) e) eqn:E.
  { by rewrite IH. }
  destruct (Float.gtb (timestamp_ms x) e) eqn:G; [|done].
  symmetry. apply filter_none.
  eapply Forall_impl; [exact Hx|]. cbn. intros y Hxy.
  rewrite (past_end_stays_past e (timestamp_ms x)), andb_false_r; done.
Qed.

Lemma before_scan_filter t events :
  StronglySorted stamp_le events →
  EventIndex.before_scan t events
  = List.filter (λ ev, Float.leb (timestamp_ms ev) t) events.
Proof.
  induction 1 as [|x l Hs IH Hx]; cbn; [done|].
  destruct (Float.leb (timestamp_ms x) t) eqn:E.
  { by rewrite IH. }
  symmetry. apply filter_none.
  eapply Forall_impl; [exact Hx|]. cbn. intros y Hxy.
  by apply (past_bound_stays_past t (timestamp_ms x)).
Qed.

Lemma after_scan_filter t events :
  EventIndex.after_scan t events
  = List.filter (λ ev, Float.geb (timestamp_ms ev) t) events.
Proof. induction events as [|x l IH]; cbn; [done|]. by rewrite IH. Qed.

Lemma infinite_tail events :
  Forall (λ e, event_ok e = true) events →
  StronglySorted stamp_le events →
  ∃ timed untimed,
    events = timed ++ untimed
    ∧ Forall (λ e, finite_stamp e = true) timed
    ∧ Forall (λ e, infinite_stamp e = true) untimed.
Proof.
  intros Hok Hs. induction Hs as [|x l Hs IH Hx]; [by exists [], []|].
  inversion Hok as [|? ? Hokx Hokl]; subst.
  destruct (IH Hokl) as (timed & untimed & -> & Ht & Hu).
  destruct (finite_stamp x) eqn:F.
  - exists (x :: timed), untimed. by repeat split; [constructor|].
  - exists [], (x :: timed ++ untimed). repeat split; [constructor|].
    assert (timestamp_ms x = PosInf) as Hinf.
    { apply event_ok_stamp in Hokx. unfold finite_stamp in F.
      by destruct (timestamp_ms x). }
    constructor; [unfold infinite_stamp; by rewrite Hinf|].
    rewrite Forall_forall in *. intros y Hy.
    specialize (Hx y Hy). specialize (Hokl y Hy). apply event_ok_stamp in Hokl.
    unfold stamp_le, infinite_stamp in *. rewrite Hinf in Hx.
    by destruct (timestamp_ms y).
Qed.

(** ** The order of the index *)

(** C1. After index construction the sequence [all()] yields is ordered by
    (timestamp_ms, event_type): of two adjacent events the first has the
    smaller timestamp, or the timestamps are equal and the first's type name
    is lexicographically not greater; timestamps never decrease along the
    sequence.  The events whose timestamp is +infinity form the tail of the
    sequence: every finite-timestamp event stands before all of them. *)
Theorem all_chronological (a : TraceArchive) :
  Sorted chron_le (EventIndex.all (EventIndex.init a))
  ∧ StronglySorted stamp_le (EventIndex.all (EventIndex.init a))
  ∧ ∃ timed untimed,
      EventIndex.all (EventIndex.init a) = timed ++ untimed
      ∧ Forall (λ e, finite_stamp e = true) timed
      ∧ Forall (λ e, infinite_stamp e = true) untimed.
Proof.
  split; [apply all_Sorted|]. split; [apply all_StronglySorted|].
  apply infinite_tail; [apply all_ok|apply all_StronglySorted].
Qed.

Lemma in_range_is_filter_gen a start_ms end_ms :
  EventIndex.in_range (EventIndex.init a) start_ms end_ms
  = List.filter (λ ev, Float.leb start_ms (timestamp_ms ev)
                       && Float.leb (timestamp_ms ev) end_ms)
      (EventIndex.all (EventIndex.init a)).
Proof. apply in_range_scan_filter, all_StronglySorted. Qed.

(** C3. For every archive and all bounds, [in_range(start, end)], the scan
    that stops at the first event past [end], returns the events of [all()]
    with start <= timestamp_ms <= end, in the same order as filtering
    [all()] does; the early exit loses no event. *)
Theorem in_range_is_filter (a : TraceArchive) (start_ms end_ms : pyfloat) :
  EventIndex.in_range (EventIndex.init a) start_ms end_ms
  = naive_in_range (EventIndex.all (EventIndex.init a)) start_ms end_ms.
Proof. apply in_range_is_filter_gen. Qed.

(** C7. After index construction the [index] fields read 0, 1, 2, ... along
    [all()], and [get_by_index(i)] is the i-th element of [all()], whose
    [index] is [i], when 0 <= i < count, and [None] for every other integer. *)
Theorem get_by_index_dense (a : TraceArchive) :
  let idx := EventIndex.init a in
  index <$> EventIndex.all idx = Z.of_nat <$> seq 0 (EventIndex.count idx)
  ∧ ∀ i : Z,
      if decide (0 ≤ i < Z.of_nat (EventIndex.count idx))
      then ∃ e, EventIndex.get_by_index idx i = Some e
                ∧ EventIndex.all idx !! Z.to_nat i = Some e
                ∧ index e = i
      else EventIndex.get_by_index idx i = None.
Proof.
  cbn zeta. unfold EventIndex.count, EventIndex.get_by_index.
  change (EventIndex._events (EventIndex._ensure_parsed (EventIndex.init a)))
    with (EventIndex.all (EventIndex.init a)).
  assert (index <$> EventIndex.all (EventIndex.init a)
          = Z.of_nat <$> seq 0 (length (EventIndex.all (EventIndex.init a)))) as Hidx.
  { rewrite all_init, fmap_imap, length_imap.
    rewrite <- (imap_seq_0 _ Z.of_nat). by apply imap_ext. }
  split; [exact Hidx|].
  intros i. case_decide as Hi.
  - replace (0 <=? i) with true by lia.
    replace (i <? _) with true by lia. cbn.
    destruct (EventIndex.all (EventIndex.init a) !! Z.to_nat i) as [e|] eqn:E.
    + exists e. repeat split.
      assert ((index <$> EventIndex.all (EventIndex.init a)) !! Z.to_nat i
              = Some (index e)) as H1 by (by rewrite list_lookup_fmap, E).
      rewrite Hidx, list_lookup_fmap in H1.
      destruct (seq _ _ !! _) as [n|] eqn:S; [|done].
      apply lookup_seq in S as [-> _]. cbn in H1. injection H1. lia.
    + apply lookup_ge_None in E. lia.
  - destruct (0 <=? i) eqn:E1; [|done].
    destruct (i <? _) eqn:E2; [|done]. lia.
Qed.

(** C9. Both one-sided queries include the boundary: [after(t)] is the
    events of [all()] with timestamp_ms >= t and [before(t)] those with
    timestamp_ms <= t, each in the order of [all()]; an event whose
    timestamp equals [t] is in both, and every event is in one of them. *)
Theorem after_before_inclusive (a : TraceArchive) (t : pyfloat) :
  Float.is_nan t = false →
  let idx := EventIndex.init a in
  EventIndex.after idx t
    = List.filter (λ ev, Float.geb (timestamp_ms ev) t) (EventIndex.all idx)
  ∧ EventIndex.before idx t
    = List.filter (λ ev, Float.leb (timestamp_ms ev) t) (EventIndex.all idx)
  ∧ Forall (λ ev, Float.eqb (timestamp_ms ev) t = true →
                  ev ∈ EventIndex.after idx t ∧ ev ∈ EventIndex.before idx t)
      (EventIndex.all idx)
  ∧ Forall (λ ev, ev ∈ EventIndex.after idx t ∨ ev ∈ EventIndex.before idx t)
      (EventIndex.all idx).
Proof.
  intros Ht idx.
  assert (EventIndex.after idx t
          = List.filter (λ ev, Float.geb (timestamp_ms ev) t) (EventIndex.all idx))
    as Ha by apply after_scan_filter.
  assert (EventIndex.before idx t
          = List.filter (λ ev, Float.leb (timestamp_ms ev) t) (EventIndex.all idx))
    as Hb by apply before_scan_filter, all_StronglySorted.
  repeat split; [done..| |].
  - apply Forall_forall. intros ev Hev Heq.
    rewrite Ha, Hb, !list_elem_of_In, !filter_In, <- !list_elem_of_In.
    repeat split; [done| |done|by apply eqb_leb].
    unfold Float.geb. apply eqb_leb. by rewrite eqb_sym.
  - pose proof (all_ok a) as Hok. rewrite Forall_forall in *.
    intros ev Hev.
    rewrite Ha, Hb, !list_elem_of_In, !filter_In, <- !list_elem_of_In.
    specialize (Hok ev Hev). apply event_ok_stamp, stamp_not_nan in Hok.
    destruct (leb_total t (timestamp_ms ev)) as [H|H]; auto.
Qed.

(** ** The type partition and the summary *)

Arguments EventIndex._ensure_parsed : simpl never.

Lemma add_by_type_lookup m e k :
  EventIndex.add_by_type m e !! k
  = if bool_decide (type_name (event_type e) = k)
    then Some (default [] (m !! k) ++ [e])
    else m !! k.
Proof.
  unfold EventIndex.add_by_type. rewrite lookup_alter.
  case_bool_decide as Hk; case_decide; try done; subst.
  - destruct (m !! type_name (event_type e)) as [l|] eqn:E.
    + by rewrite E.
    + by rewrite lookup_insert_eq.
  - destruct (m !! type_name (event_type e)); [done|].
    by rewrite lookup_insert_ne.
Qed.

Lemma foldl_add_by_type_lookup events : ∀ m k,
  foldl EventIndex.add_by_type m events !! k
  = match List.filter (λ e, bool_decide (type_name (event_type e) = k)) events with
    | [] => m !! k
    | found => Some (default [] (m !! k) ++ found)
    end.
Proof.
  induction events as [|e l IH]; intros m k; cbn; [done|].
  rewrite IH, add_by_type_lookup.
  case_bool_decide; [|done]. cbn.
  destruct (List.filter _ l); cbn; [done|].
  by rewrite <- app_assoc.
Qed.

Lemma filter_type_name ty events :
  List.filter (λ e, bool_decide (type_name (event_type e) = type_name ty)) events
  = List.filter (has_type ty) events.
Proof.
  apply filter_ext. intros e. unfold has_type.
  apply bool_decide_ext. split; [apply type_name_inj|by intros ->].
Qed.

Lemma by_type_lookup a ty :
  EventIndex._by_type (EventIndex._ensure_parsed (EventIndex.init a)) !! type_name ty
  = match List.filter (has_type ty) (EventIndex.all (EventIndex.init a)) with
    | [] => None
    | found => Some found
    end.
Proof.
  rewrite by_type_init, foldl_add_by_type_lookup, filter_type_name.
  by rewrite lookup_empty.
Qed.



Lemma finite_filter_agree events :
  Forall (λ e, event_ok e = true) events →
  List.filter (λ e, Float.neqb (timestamp_ms e) PosInf) events
  = List.filter finite_stamp events.
Proof.
  intros Hok. apply filter_ext_in. intros e He.
  rewrite Forall_forall in Hok.
  specialize (Hok e (proj2 (list_elem_of_In _ _) He)).
  apply event_ok_stamp in Hok. unfold finite_stamp.
  by destruct (timestamp_ms e).
Qed.



(** ** Correlation around a timestamp *)






Lemma filter_filter {A} (f g : A → bool) l :
  List.filter f (List.filter g l) = List.filter (λ x, f x && g x) l.
Proof.
  induction l as [|x l IH]; cbn; [done|].
  destruct (g x); cbn; rewrite ?andb_true_r, ?andb_false_r;
    [destruct (f x)|]; by rewrite IH.
Qed.





(** ** The archive reader *)

(** C5, as the code has it. [get_resource] returns the bytes of the member a
    reference names and raises [KeyError] when the archive has no such
    member; [get_resource_text] never raises: it returns the decoded text,
    and [None] when the member is missing or its bytes are not UTF-8. *)
Theorem resource_lookup (a : TraceArchive) (sha1_or_path : string) :
  match zf a !! resource_name sha1_or_path with
  | None =>
      get_resource a sha1_or_path = Raise (KeyError (resource_name sha1_or_path))
      ∧ get_resource_text a sha1_or_path = Return None
  | Some data =>
      get_resource a sha1_or_path = Return data
      ∧ get_resource_text a sha1_or_path
        = Return (utf8_decode (Byte.to_N <$> data))
  end.
Proof.
  unfold get_resource_text, get_resource, resource_name, zf_read, decode.
  destruct (startswith _ _); destruct (zf a !! _); try done;
    by destruct (utf8_decode _).
Qed.

(** On an archive without the member [get_resource] raises: the caller gets
    no not-found value. *)
Lemma get_resource_raises :
  get_resource sample_archive "deadbeef" = Raise (KeyError "resources/deadbeef")
  ∧ ¬ ∃ data, get_resource sample_archive "deadbeef" = Return data.
Proof. split; [done|]. by intros [data H]. Qed.

Lemma find_none {A} (f : A → bool) l :
  Forall (λ x, f x = false) l → List.find f l = None.
Proof. induction 1 as [|x l Hx _ IH]; cbn; [done|]. by rewrite Hx. Qed.

Arguments get_context_options : simpl never.
Arguments get_trace_start_time : simpl never.

(** C10. On an archive whose runtime stream has no [context-options] record
    the metadata accessors return defaults: [get_context_options] returns the
    empty record and memoizes it, the trace start time is 0, the wall-clock
    start is 0, the test name and the browser name are empty; the index
    built on such an archive carries these values. *)
Theorem metadata_defaults files (runtime tests : list Entry) (net : list NetEntry) :
  Forall (λ r, is_type "context-options" r = false) runtime →
  let a := open_archive files runtime tests net in
  let a' := (get_context_options a).2 in
  (get_context_options a).1 = empty_entry
  ∧ _context_options a' = Some empty_entry
  ∧ get_context_options a' = (empty_entry, a')
  ∧ (get_trace_start_time a).1 = 0%Q
  ∧ (get_trace_start_time a').1 = 0%Q
  ∧ (get_wall_time a').1 = 0%Q
  ∧ (get_test_name a').1 = EmptyString
  ∧ (get_browser_name a').1 = EmptyString
  ∧ EventIndex._trace_start_ms (EventIndex._ensure_parsed (EventIndex.init a)) = 0%Q
  ∧ test_name (EventIndex.get_summary (EventIndex.init a)) = EmptyString
  ∧ browser (EventIndex.get_summary (EventIndex.init a)) = EmptyString.
Proof.
  intros Hno a a'.
  assert (get_context_options a = (empty_entry, set_context_options a empty_entry))
    as Hctx.
  { unfold get_context_options; cbn. by rewrite (find_none _ _ Hno). }
  assert (a' = set_context_options a empty_entry) as Ha'.
  { unfold a'. by rewrite Hctx. }
  assert (get_trace_start_time a
          = (0%Q, set_trace_start_time (set_context_options a empty_entry) 0%Q))
    as Hstart.
  { unfold get_trace_start_time; cbn. by rewrite Hctx. }
  repeat split.
  - by rewrite Hctx.
  - by rewrite Ha'.
  - by rewrite Ha'.
  - by rewrite Hstart.
  - by rewrite Ha'.
  - by rewrite Ha'.
  - by rewrite Ha'.
  - by rewrite Ha'.
  - unfold EventIndex._ensure_parsed; cbn. by rewrite Hstart.
  - unfold EventIndex.get_summary, EventIndex._ensure_parsed; cbn.
    by rewrite Hstart.
  - unfold EventIndex.get_summary, EventIndex._ensure_parsed; cbn.
    by rewrite Hstart.
Qed.

(** ** Span reconstruction *)

Lemma is_type_eq name entry : is_type name entry = true → k_type entry = Some name.
Proof. unfold is_type. by intros ?%bool_decide_eq_true. Qed.

Lemma pending_keyed_empty key : pending_keyed key ∅.
Proof. intros k b. by rewrite lookup_empty. Qed.

Lemma pending_keyed_insert key m entry :
  pending_keyed key m → pending_keyed key (<[key entry := entry]> m).
Proof.
  intros Hm k b. rewrite lookup_insert. case_decide; [|apply Hm].
  intros [= <-]. done.
Qed.

Lemma pending_keyed_delete key m k0 :
  pending_keyed key m → pending_keyed key (delete k0 m).
Proof.
  intros Hm k b. rewrite lookup_delete. case_decide; [done|apply Hm].
Qed.

(** Case analysis on one iteration of a parser loop. *)
Ltac step_cases :=
  repeat case_bool_decide; cbn;
  repeat match goal with
         | |- context [match ?x with _ => _ end] => destruct x eqn:?; cbn
         end.

Module BrowserFacts.
Import BrowserTraceParser.

Lemma run_app_rt l1 : ∀ st l2,
  run st (l1 ++ l2)
  = ((run (run st l1).1 l2).1, (run st l1).2 ++ (run (run st l1).1 l2).2).
Proof.
  induction l1 as [|r l1 IH]; intros st l2; cbn.
  - by destruct (run st l2).
  - destruct (step st r) as [st1 out1]. rewrite IH.
    destruct (run st1 l1) as [st2 out2]; cbn.
    by rewrite app_assoc.
Qed.

Lemma run_cons_rt st r l :
  run st (r :: l)
  = ((run (step st r).1 l).1, (step st r).2 ++ (run (step st r).1 l).2).
Proof.
  change (run st (r :: l))
    with (let '(st1, out1) := step st r in
          let '(st2, out2) := run st1 l in (st2, out1 ++ out2)).
  destruct (step st r) as [st1 out1]; cbn [fst snd].
  by destruct (run st1 l).
Qed.

Lemma step_keyed_rt st r :
  pending_keyed call_id_of (_before_events st) →
  pending_keyed call_id_of (_before_events (step st r).1).
Proof.
  intros Hst. unfold step. step_cases;
    auto using pending_keyed_delete.
  by apply (pending_keyed_insert call_id_of).
Qed.

Lemma run_keyed_rt l : ∀ st,
  pending_keyed call_id_of (_before_events st) →
  pending_keyed call_id_of (_before_events (run st l).1).
Proof.
  induction l as [|r l IH]; intros st Hst; [done|].
  rewrite run_cons_rt; cbn. by apply IH, step_keyed_rt.
Qed.

Lemma step_other_rt st r id :
  half_for "before" call_id_of id r = false →
  half_for "after" call_id_of id r = false →
  _before_events (step st r).1 !! id = _before_events st !! id.
Proof.
  unfold half_for, is_type, step. intros Hb Ha.
  step_cases; cbn in *; try done; unfold call_id_of in *.
  all: by rewrite ?lookup_insert_ne, ?lookup_delete_ne.
Qed.

Lemma run_other_rt l id : ∀ st,
  Forall (λ r, half_for "before" call_id_of id r = false
               ∧ half_for "after" call_id_of id r = false) l →
  _before_events (run st l).1 !! id = _before_events st !! id.
Proof.
  induction l as [|r l IH]; intros st Hl; [done|].
  inversion Hl as [|? ? [Hb Ha] Hl']; subst.
  rewrite run_cons_rt; cbn. rewrite IH by done. by apply step_other_rt.
Qed.

Lemma step_no_action_rt st r id :
  pending_keyed call_id_of (_before_events st) →
  half_for "after" call_id_of id r = false →
  Forall (λ ev, action_for id ev = false) (step st r).2.
Proof.
  unfold half_for, is_type, step. intros Hst Ha.
  step_cases; repeat constructor;
    unfold _parse_console, _parse_action, _parse_screenshot, _parse_log,
      _parse_input in *;
    repeat match goal with
           | H : (if ?c then _ else _) = Some _ |- _ => destruct c
           end;
    simplify_eq; try done.
  all: unfold action_for; cbn; apply bool_decide_eq_false_2; intros Heq.
  all: match goal with
       | H : _ !! _ = Some _ |- _ => apply Hst in H
       end.
  all: unfold call_id_of in *; congruence.
Qed.

Lemma run_no_action_rt l id : ∀ st,
  pending_keyed call_id_of (_before_events st) →
  Forall (λ r, half_for "after" call_id_of id r = false) l →
  Forall (λ ev, action_for id ev = false) (run st l).2.
Proof.
  induction l as [|r l IH]; intros st Hst Hl; [constructor|].
  inversion Hl; subst. rewrite run_cons_rt; cbn. apply Forall_app. split.
  - by apply step_no_action_rt.
  - apply IH; [by apply step_keyed_rt|done].
Qed.

Lemma step_before_rt st b :
  is_type "before" b = true →
  step st b
  = (if truthy (call_id_of b)
     then mkState (<[call_id_of b := b]> (_before_events st)) (console_index st)
            (action_index st) (screenshot_index st) (log_index st)
            (input_index st)
     else st, []).
Proof.
  intros Hb%is_type_eq. unfold step. rewrite Hb.
  rewrite bool_decide_eq_false_2 by done.
  rewrite bool_decide_eq_true_2 by done.
  by destruct (truthy _).
Qed.

Lemma step_after_unmatched_rt st a :
  is_type "after" a = true →
  _before_events st !! call_id_of a = None →
  step st a = (st, []).
Proof.
  intros Ha%is_type_eq Hnone. unfold step. rewrite Ha.
  rewrite !bool_decide_eq_false_2 by done.
  rewrite bool_decide_eq_true_2 by done.
  fold (call_id_of a). by rewrite Hnone.
Qed.

Lemma step_after_matched_rt st a b :
  is_type "after" a = true →
  _before_events st !! call_id_of a = Some b →
  ∃ ev, _parse_action b a (action_index st) = Some ev
        ∧ step st a
          = (mkState (delete (call_id_of a) (_before_events st))
               (console_index st) (action_index st + 1) (screenshot_index st)
               (log_index st) (input_index st), [ev]).
Proof.
  intros Ha%is_type_eq Hb. unfold step. rewrite Ha.
  rewrite !bool_decide_eq_false_2 by done.
  rewrite bool_decide_eq_true_2 by done.
  fold (call_id_of a). rewrite Hb. by eexists.
Qed.
End BrowserFacts.

Module TestFacts.
Import TestTraceParser.

Lemma run_cons_tt st r l :
  run st (r :: l)
  = ((run (step st r).1 l).1, (step st r).2 ++ (run (step st r).1 l).2).
Proof.
  change (run st (r :: l))
    with (let '(st1, out1) := step st r in
          let '(st2, out2) := run st1 l in (st2, out1 ++ out2)).
  destruct (step st r) as [st1 out1]; cbn [fst snd].
  by destruct (run st1 l).
Qed.

Lemma run_app_tt l1 : ∀ st l2,
  run st (l1 ++ l2)
  = ((run (run st l1).1 l2).1, (run st l1).2 ++ (run (run st l1).1 l2).2).
Proof.
  induction l1 as [|r l1 IH]; intros st l2.
  - cbn. by destruct (run st l2).
  - rewrite <- app_comm_cons, !run_cons_tt, IH; cbn [fst snd].
    by rewrite app_assoc.
Qed.

Lemma step_keyed_tt st r :
  pending_keyed step_id_of (_before_events st) →
  pending_keyed step_id_of (_before_events (step st r).1).
Proof.
  intros Hst. unfold step. step_cases;
    auto using pending_keyed_delete.
  by apply (pending_keyed_insert step_id_of).
Qed.

Lemma run_keyed_tt l : ∀ st,
  pending_keyed step_id_of (_before_events st) →
  pending_keyed step_id_of (_before_events (run st l).1).
Proof.
  induction l as [|r l IH]; intros st Hst; [done|].
  rewrite run_cons_tt; cbn. by apply IH, step_keyed_tt.
Qed.

Lemma step_no_span_tt st r id :
  pending_keyed step_id_of (_before_events st) →
  half_for "after" step_id_of id r = false →
  Forall (λ ev, span_for step_id_of id ev = false) (step st r).2.
Proof.
  unfold half_for, is_type, step. intros Hst Ha.
  step_cases; repeat constructor;
    unfold _parse_test_action, _parse_error in *;
    repeat match goal with
           | H : context [_parse_assertion ?m] |- _ =>
               destruct (_parse_assertion m)
           end;
    simplify_eq; try done.
  all: unfold span_for; cbn; apply bool_decide_eq_false_2; intros Heq.
  all: match goal with
       | H : _ !! _ = Some _ |- _ => apply Hst in H
       end.
  all: congruence.
Qed.

Lemma run_no_span_tt l id : ∀ st,
  pending_keyed step_id_of (_before_events st) →
  Forall (λ r, half_for "after" step_id_of id r = false) l →
  Forall (λ ev, span_for step_id_of id ev = false) (run st l).2.
Proof.
  induction l as [|r l IH]; intros st Hst Hl; [constructor|].
  inversion Hl; subst. rewrite run_cons_tt; cbn. apply Forall_app. split.
  - by apply step_no_span_tt.
  - apply IH; [by apply step_keyed_tt|done].
Qed.

Lemma step_before_tt st b :
  is_type "before" b = true → (step st b).2 = [].
Proof.
  intros Hb%is_type_eq. unfold step. rewrite Hb.
  rewrite bool_decide_eq_true_2 by done.
  by destruct (truthy _).
Qed.

Lemma step_after_unmatched_tt st a :
  is_type "after" a = true →
  _before_events st !! step_id_of a = None →
  step st a = (st, []).
Proof.
  intros Ha%is_type_eq Hnone. unfold step. rewrite Ha.
  rewrite !bool_decide_eq_false_2 by done.
  rewrite bool_decide_eq_true_2 by done.
  by rewrite Hnone.
Qed.
End TestFacts.

Lemma browser_run_init_keyed l :
  pending_keyed call_id_of
    (BrowserTraceParser._before_events
       (BrowserTraceParser.run BrowserTraceParser.init l).1).
Proof. apply BrowserFacts.run_keyed_rt, pending_keyed_empty. Qed.

Lemma test_run_init_keyed l :
  pending_keyed TestTraceParser.step_id_of
    (TestTraceParser._before_events
       (TestTraceParser.run TestTraceParser.init l).1).
Proof. apply TestFacts.run_keyed_tt, pending_keyed_empty. Qed.

(** C2. In a runtime stream where a [before] record with call identifier X
    is followed by an [after] record with the same identifier (no other span
    half for X in between), the parser emits, when the [after] record
    arrives, exactly one ActionEvent for X: its timestamp is the [startTime]
    of the [before] record, its duration is [endTime] minus [startTime], and
    the pending entry for X is removed.  When no further [after] record for
    X occurs in the stream, it is the only ActionEvent for X in the output. *)
Theorem span_reconstruction (arch : TraceArchive) (pre mid post : list Entry)
    (b a : Entry) (X : string) (s e : Q) :
  iter_browser_trace arch = pre ++ b :: mid ++ a :: post →
  is_type "before" b = true → k_callId b = Some X → truthy X = true →
  k_startTime b = Some s →
  is_type "after" a = true → k_callId a = Some X → k_endTime a = Some e →
  Forall (λ r, half_for "before" call_id_of X r = false
               ∧ half_for "after" call_id_of X r = false) mid →
  let st1 := (BrowserTraceParser.run BrowserTraceParser.init (pre ++ b :: mid)).1 in
  let st2 := (BrowserTraceParser.step st1 a).1 in
  ∃ ev act,
    (BrowserTraceParser.step st1 a).2 = [ev]
    ∧ event_type ev = Action ∧ action ev = Some act ∧ raw ev = RawPair b a
    ∧ call_id act = X
    ∧ timestamp_ms ev = Finite s
    ∧ duration_ms act = (e - s)%Q
    ∧ BrowserTraceParser._before_events st1 !! X = Some b
    ∧ BrowserTraceParser._before_events st2 !! X = None
    ∧ BrowserTraceParser.parse arch
      = (BrowserTraceParser.run BrowserTraceParser.init (pre ++ b :: mid)).2
        ++ ev :: (BrowserTraceParser.run st2 post).2
    ∧ (Forall (λ r, half_for "after" call_id_of X r = false) (pre ++ post) →
       List.filter (action_for X) (BrowserTraceParser.parse arch) = [ev]).
Proof.
  intros Hstream Hb HbX HX Hs Ha HaX He Hmid st1 st2.
  assert (call_id_of b = X) as Hcb by (unfold call_id_of; by rewrite HbX).
  assert (call_id_of a = X) as Hca by (unfold call_id_of; by rewrite HaX).
  assert (BrowserTraceParser._before_events st1 !! X = Some b) as Hpending.
  { unfold st1. rewrite BrowserFacts.run_app_rt; cbn [fst].
    rewrite BrowserFacts.run_cons_rt; cbn [fst].
    rewrite BrowserFacts.run_other_rt by done.
    rewrite BrowserFacts.step_before_rt by done. rewrite Hcb, HX; cbn.
    apply lookup_insert_eq. }
  destruct (BrowserFacts.step_after_matched_rt st1 a b Ha) as (ev & Hev & Hstep).
  { by rewrite Hca. }
  unfold BrowserTraceParser._parse_action in Hev. injection Hev as <-.
  eexists _, _. fold st1 in Hstep |- *.
  assert (BrowserTraceParser.parse arch
          = (BrowserTraceParser.run BrowserTraceParser.init (pre ++ b :: mid)).2
            ++ (BrowserTraceParser.step st1 a).2
            ++ (BrowserTraceParser.run st2 post).2) as Hparse.
  { unfold BrowserTraceParser.parse. rewrite Hstream.
    replace (pre ++ b :: mid ++ a :: post)
      with ((pre ++ b :: mid) ++ a :: post) by by rewrite <- app_assoc.
    rewrite BrowserFacts.run_app_rt; cbn [snd].
    by rewrite BrowserFacts.run_cons_rt. }
  rewrite Hparse. unfold st2. rewrite Hstep; cbn [fst snd].
  split; [done|]. split; [done|]. split; [done|]. split; [done|].
  split; [done|]. split; [by rewrite Hs|]. split; [by rewrite Hs, He|].
  split; [done|]. split; [rewrite Hca; apply lookup_delete_eq|].
  split; [done|].
  intros Hrest. apply Forall_app in Hrest as [Hpre Hpost].
  set (ev := mkEvent _ _ _ _ _ _ _ _ _ _ _).
  rewrite !List.filter_app.
  rewrite (filter_none (action_for X)
             (BrowserTraceParser.run BrowserTraceParser.init (pre ++ b :: mid)).2).
  2:{ apply BrowserFacts.run_no_action_rt; [apply pending_keyed_empty|].
      apply Forall_app. split; [done|]. constructor.
      - unfold half_for, is_type. by rewrite (is_type_eq _ _ Hb).
      - eapply Forall_impl; [exact Hmid|]. by intros r [_ ?]. }
  cbn [List.filter app].
  rewrite (filter_none (action_for X)).
  2:{ apply BrowserFacts.run_no_action_rt; [|done].
      apply pending_keyed_delete, browser_run_init_keyed. }
  unfold action_for at 1; cbn. fold (call_id_of b).
  by rewrite Hcb, bool_decide_eq_true_2.
Qed.

(** C6. An unmatched span half produces no event, in the runtime parser
    (keyed by call identifier) and in the test-run parser (keyed by step
    identifier) alike.  An [after] record that finds no pending [before]
    under its identifier yields nothing and leaves the parser state as it
    was; a [before] record after which no [after] record with its identifier
    occurs yields nothing itself, and nothing emitted after it is a span for
    its identifier.  Both parsers are total functions of the stream: no
    outcome other than the list of events exists. *)
Theorem unmatched_halves_dropped (pre post : list Entry) (b a : Entry) :
  is_type "before" b = true → is_type "after" a = true →
  let rt := (BrowserTraceParser.run BrowserTraceParser.init pre).1 in
  let tt := (TestTraceParser.run TestTraceParser.init pre).1 in
  (BrowserTraceParser._before_events rt !! call_id_of a = None →
   BrowserTraceParser.step rt a = (rt, []))
  ∧ (TestTraceParser._before_events tt !! TestTraceParser.step_id_of a = None →
     TestTraceParser.step tt a = (tt, []))
  ∧ (Forall (λ r, half_for "after" call_id_of (call_id_of b) r = false) post →
     (BrowserTraceParser.step rt b).2 = []
     ∧ (BrowserTraceParser.run BrowserTraceParser.init (pre ++ b :: post)).2
       = (BrowserTraceParser.run BrowserTraceParser.init pre).2
         ++ (BrowserTraceParser.run (BrowserTraceParser.step rt b).1 post).2
     ∧ Forall (λ ev, action_for (call_id_of b) ev = false)
         (BrowserTraceParser.run (BrowserTraceParser.step rt b).1 post).2)
  ∧ (Forall (λ r, half_for "after" TestTraceParser.step_id_of
                    (TestTraceParser.step_id_of b) r = false) post →
     (TestTraceParser.step tt b).2 = []
     ∧ (TestTraceParser.run TestTraceParser.init (pre ++ b :: post)).2
       = (TestTraceParser.run TestTraceParser.init pre).2
         ++ (TestTraceParser.run (TestTraceParser.step tt b).1 post).2
     ∧ Forall (λ ev, span_for TestTraceParser.step_id_of
                       (TestTraceParser.step_id_of b) ev = false)
         (TestTraceParser.run (TestTraceParser.step tt b).1 post).2).
Proof.
  intros Hb Ha rt tt. split; [|split; [|split]].
  - by apply BrowserFacts.step_after_unmatched_rt.
  - by apply TestFacts.step_after_unmatched_tt.
  - intros Hpost.
    assert ((BrowserTraceParser.step rt b).2 = []) as Hnil.
    { by rewrite BrowserFacts.step_before_rt. }
    split; [done|]. split.
    + rewrite BrowserFacts.run_app_rt; cbn [snd].
      rewrite BrowserFacts.run_cons_rt; cbn [snd]. fold rt. by rewrite Hnil.
    + apply BrowserFacts.run_no_action_rt; [|done].
      apply BrowserFacts.step_keyed_rt, browser_run_init_keyed.
  - intros Hpost.
    assert ((TestTraceParser.step tt b).2 = []) as Hnil.
    { by apply TestFacts.step_before_tt. }
    split; [done|]. split.
    + rewrite TestFacts.run_app_tt; cbn [snd].
      rewrite TestFacts.run_cons_tt; cbn [snd]. fold tt. by rewrite Hnil.
    + apply TestFacts.run_no_span_tt; [|done].
      apply TestFacts.step_keyed_tt, test_run_init_keyed.
Qed.

(** ** Sample runs *)

Example sample_all :
  (λ e, (index e, timestamp_ms e, event_type e))
    <$> EventIndex.all (EventIndex.init sample_archive)
  = [(0, Finite 0, Input); (1, Finite 7, Console); (2, Finite 30, Console);
     (3, Finite 100, Action); (4, PosInf, Error)].
Proof. vm_compute. reflexivity. Qed.

Example sample_tie :
  (λ e, (index e, timestamp_ms e, event_type e))
    <$> EventIndex.all
          (EventIndex.init (open_archive ∅ [input_entry; console_at 0] [] []))
  = [(0, Finite 0, Console); (1, Finite 0, Input)].
Proof. vm_compute. reflexivity. Qed.

Example sample_in_range :
  index <$> EventIndex.in_range (EventIndex.init sample_archive)
              (Finite 7) (Finite 100)
  = [1; 2; 3].
Proof. vm_compute. reflexivity. Qed.

Example sample_span :
  (λ e, (timestamp_ms e, duration_ms <$> action e))
    <$> BrowserTraceParser.parse (open_archive ∅ [before_X; after_X] [] [])
  = [(Finite 100, Some 50%Q)].
Proof. vm_compute. reflexivity. Qed.

Example sample_summary :
  summary_duration_ms (EventIndex.get_summary (EventIndex.init sample_archive))
  = Finite 100.
Proof. vm_compute. reflexivity. Qed.

Example sample_ansi_sub :
  TestTraceParser.ANSI_ESCAPE_sub ([27; 91; 51; 49; 109]%N ++ codepoints "red"
                   ++ [27; 91; 48; 109]%N ++ [27; 91; 51; 120]%N)
  = codepoints "red" ++ [27; 91; 51; 120]%N.
Proof. reflexivity. Qed.

Example sample_assertion :
  TestTraceParser._parse_assertion
    (codepoints "expect(received).toBe(expected)" ++ [10]%N
     ++ codepoints "  Expected: 1" ++ [10]%N ++ codepoints "Received: 2 ")
  = (Some (codepoints "1"), Some (codepoints "2")).
Proof. reflexivity. Qed.


Example sample_one_sided :
  index <$> EventIndex.after (EventIndex.init sample_archive) (Finite 7) = [1; 2; 3; 4]
  ∧ index <$> EventIndex.before (EventIndex.init sample_archive) (Finite 7) = [0; 1].
Proof. by vm_compute. Qed.

Lemma span_reconstruction_witness :
  iter_browser_trace span_archive = [] ++ before_X :: [] ++ after_X :: []
  ∧ is_type "before" before_X = true
  ∧ k_callId before_X = Some "X"
  ∧ truthy "X" = true
  ∧ k_startTime before_X = Some 100%Q
  ∧ is_type "after" after_X = true
  ∧ k_callId after_X = Some "X"
  ∧ k_endTime after_X = Some 150%Q
  ∧ ∃ ev act,
      BrowserTraceParser.parse span_archive = [ev]
      ∧ action ev = Some act
      ∧ call_id act = "X"
      ∧ timestamp_ms ev = Finite 100
      ∧ duration_ms act = (150 - 100)%Q
      ∧ List.filter (action_for "X") (BrowserTraceParser.parse span_archive) = [ev].
Proof.
  repeat (split; [reflexivity|]).
  destruct (span_reconstruction span_archive [] [] [] before_X after_X "X"
              100%Q 150%Q eq_refl eq_refl eq_refl eq_refl eq_refl eq_refl
              eq_refl eq_refl (List.Forall_nil _))
    as (ev & act & _ & _ & Hact & _ & Hid & Hts & Hdur & _ & _ & Hparse & Hone).
  exists ev, act.
  split; [exact Hparse|]. split; [exact Hact|]. split; [exact Hid|].
  split; [exact Hts|]. split; [exact Hdur|].
  exact (Hone (List.Forall_nil _)).
Defined.

Lemma unmatched_halves_dropped_witness :
  is_type "before" before_X = true
  ∧ is_type "after" after_X = true
  ∧ BrowserTraceParser.step BrowserTraceParser.init after_X
    = (BrowserTraceParser.init, [])
  ∧ TestTraceParser.step TestTraceParser.init after_X
    = (TestTraceParser.init, [])
  ∧ (BrowserTraceParser.run BrowserTraceParser.init
       ([] ++ before_X :: [console_at 7])).2
    = [] ++ (BrowserTraceParser.run
               (BrowserTraceParser.step BrowserTraceParser.init before_X).1
               [console_at 7]).2
  ∧ (TestTraceParser.run TestTraceParser.init ([] ++ before_X :: [error_entry])).2
    = [] ++ (TestTraceParser.run
               (TestTraceParser.step TestTraceParser.init before_X).1
               [error_entry]).2.
Proof.
  split; [reflexivity|]. split; [reflexivity|].
  destruct (unmatched_halves_dropped [] [console_at 7] before_X after_X
              eq_refl eq_refl) as (H1 & H2 & H3 & _).
  destruct (unmatched_halves_dropped [] [error_entry] before_X after_X
              eq_refl eq_refl) as (_ & _ & _ & H4).
  split; [apply H1; reflexivity|]. split; [apply H2; reflexivity|].
  split.
  - apply H3. repeat constructor.
  - apply H4. repeat constructor.
Defined.

Lemma after_before_inclusive_witness :
  Float.is_nan (Finite 7) = false
  ∧ let idx := EventIndex.init sample_archive in
    EventIndex.after idx (Finite 7)
      = List.filter (λ ev, Float.geb (timestamp_ms ev) (Finite 7)) (EventIndex.all idx)
    ∧ EventIndex.before idx (Finite 7)
      = List.filter (λ ev, Float.leb (timestamp_ms ev) (Finite 7)) (EventIndex.all idx)
    ∧ Forall (λ ev, Float.eqb (timestamp_ms ev) (Finite 7) = true →
                    ev ∈ EventIndex.after idx (Finite 7)
                    ∧ ev ∈ EventIndex.before idx (Finite 7))
        (EventIndex.all idx)
    ∧ Forall (λ ev, ev ∈ EventIndex.after idx (Finite 7)
                    ∨ ev ∈ EventIndex.before idx (Finite 7))
        (EventIndex.all idx).
Proof.
  split; [reflexivity|].
  apply (after_before_inclusive sample_archive (Finite 7)). reflexivity.
Defined.

Lemma metadata_defaults_witness :
  Forall (λ r, is_type "context-options" r = false) [console_at 30]
  ∧ let a := open_archive ∅ [console_at 30] [] [] in
    (get_context_options a).1 = empty_entry
    ∧ (get_trace_start_time a).1 = 0%Q
    ∧ (get_wall_time (get_context_options a).2).1 = 0%Q
    ∧ (get_test_name (get_context_options a).2).1 = EmptyString
    ∧ (get_browser_name (get_context_options a).2).1 = EmptyString.
Proof.
  assert (Forall (λ r, is_type "context-options" r = false) [console_at 30])
    as Hno by (repeat constructor).
  split; [exact Hno|].
  destruct (metadata_defaults ∅ [console_at 30] [] [] Hno)
    as (H1 & _ & _ & H4 & _ & H6 & H7 & H8 & _).
  repeat split; assumption.
Defined.

(** * Further properties of the engine *)

(** ** The type partition *)

Lemma type_name_in_all_types ty : type_name ty ∈ type_name <$> all_types.
Proof. apply list_elem_of_fmap_2. destruct ty; set_solver. Qed.

Lemma length_by_types (l : list Event) :
  length l = sum_list ((λ ty, count_of ty l) <$> all_types).
Proof.
  induction l as [|e l IH]; [done|].
  unfold count_of, has_type in *. cbn [all_types fmap list_fmap sum_list] in *.
  cbn [List.filter].
  destruct (event_type e); repeat case_bool_decide; try done;
    cbn [length]; unfold id in *; lia.
Qed.

Lemma by_type_is_filter_count a ty :
  EventIndex.count_by_type (EventIndex.init a) (type_name ty)
  = count_of ty (EventIndex.all (EventIndex.init a)).
Proof.
  unfold EventIndex.count_by_type, count_of.
  rewrite by_type_lookup. by destruct (List.filter _ _).
Qed.

Lemma by_type_filter a ty :
  EventIndex.by_type (EventIndex.init a) (type_name ty)
  = List.filter (has_type ty) (EventIndex.all (EventIndex.init a)).
Proof.
  unfold EventIndex.by_type. rewrite by_type_lookup.
  by destruct (List.filter _ _).
Qed.

(** X1. [by_type(name)] is the events of [all()] of that type, in the order
    of [all()], and [count_by_type] is their number; a name that is no event
    type gives the empty sequence. *)
Theorem by_type_is_filter (a : TraceArchive) :
  let idx := EventIndex.init a in
  (∀ ty, EventIndex.by_type idx (type_name ty)
         = List.filter (has_type ty) (EventIndex.all idx)
         ∧ EventIndex.count_by_type idx (type_name ty)
           = count_of ty (EventIndex.all idx))
  ∧ ∀ name, name ∉ type_name <$> all_types →
            EventIndex.by_type idx name = []
            ∧ EventIndex.count_by_type idx name = 0%nat.
Proof.
  cbn zeta. split.
  - intros ty. split; [apply by_type_filter|apply by_type_is_filter_count].
  - intros name Hname.
    unfold EventIndex.by_type, EventIndex.count_by_type.
    rewrite by_type_init, foldl_add_by_type_lookup, lookup_empty.
    rewrite filter_none; [done|].
    apply Forall_forall. intros e _. apply bool_decide_eq_false_2.
    intros <-. apply Hname, type_name_in_all_types.
Qed.

Lemma by_type_is_filter_witness :
  ("navigation" ∉ type_name <$> all_types)
  ∧ EventIndex.by_type (EventIndex.init sample_archive) "navigation" = []
  ∧ EventIndex.count_by_type (EventIndex.init sample_archive) "navigation" = 0%nat.
Proof.
  assert ("navigation" ∉ type_name <$> all_types) as Hname.
  { intros Hin. by repeat (apply elem_of_cons in Hin as [Hin|Hin]; [done|]);
      apply elem_of_nil in Hin. }
  split; [exact Hname|].
  apply (proj2 (by_type_is_filter sample_archive) "navigation" Hname).
Defined.

(** X2. The seven types partition the index: [count()] is the sum of
    [count_by_type] over the event types. *)
Theorem count_is_sum_of_types (a : TraceArchive) :
  let idx := EventIndex.init a in
  EventIndex.count idx
  = sum_list ((λ ty, EventIndex.count_by_type idx (type_name ty)) <$> all_types).
Proof.
  cbn zeta. unfold EventIndex.count.
  change (EventIndex._events (EventIndex._ensure_parsed (EventIndex.init a)))
    with (EventIndex.all (EventIndex.init a)).
  rewrite (length_by_types (EventIndex.all (EventIndex.init a))).
  f_equal. apply list_fmap_ext. intros _ ty _.
  symmetry. apply (by_type_is_filter_count a ty).
Qed.

(** ** What index construction keeps *)

Lemma unindexed_imap (l : list Event) :
  unindexed <$> imap (λ i e, set_index (Z.of_nat i) e) l = unindexed <$> l.
Proof.
  rewrite fmap_imap, <- (imap_const unindexed). by apply imap_ext.
Qed.

Lemma all_unindexed a :
  unindexed <$> EventIndex.all (EventIndex.init a)
  = unindexed <$> sort_by key_ltb sort_key (parsed_events a).
Proof. rewrite all_init. apply unindexed_imap. Qed.

Lemma filter_unindexed (p : Event → bool) (l : list Event) :
  (∀ e, p (unindexed e) = p e) →
  unindexed <$> List.filter p l = List.filter p (unindexed <$> l).
Proof.
  intros Hp. induction l as [|e l IH]; cbn; [done|].
  rewrite Hp. destruct (p e); cbn; by rewrite IH.
Qed.

Lemma filter_length_Permutation {A} (f : A → bool) (l1 l2 : list A) :
  l1 ≡ₚ l2 → length (List.filter f l1) = length (List.filter f l2).
Proof.
  induction 1 as [|x l1 l2 _ IH|x y l|l1 l2 l3 _ IH1 _ IH2]; cbn;
    [done| |by destruct (f x), (f y)|congruence].
  destruct (f x); cbn; by rewrite IH.
Qed.

Lemma count_of_unindexed ty l : count_of ty (unindexed <$> l) = count_of ty l.
Proof.
  unfold count_of. rewrite <- filter_unindexed by done. apply length_fmap.
Qed.

Lemma count_of_all a ty :
  count_of ty (EventIndex.all (EventIndex.init a)) = count_of ty (parsed_events a).
Proof.
  rewrite <- (count_of_unindexed ty (EventIndex.all _)), all_unindexed.
  rewrite count_of_unindexed. apply filter_length_Permutation.
  apply sort_by_Permutation.
Qed.

(** X3. Index construction loses and invents nothing: [all()] holds the
    events the three parsers emit, each once, changed only in its [index],
    and [count()] is the number of emitted events. *)
Theorem construction_keeps_events (a : TraceArchive) :
  let idx := EventIndex.init a in
  unindexed <$> EventIndex.all idx ≡ₚ unindexed <$> parsed_events a
  ∧ EventIndex.count idx = length (parsed_events a).
Proof.
  cbn zeta. split.
  - rewrite all_unindexed. by rewrite (sort_by_Permutation key_ltb sort_key).
  - unfold EventIndex.count.
    change (EventIndex._events (EventIndex._ensure_parsed (EventIndex.init a)))
      with (EventIndex.all (EventIndex.init a)).
    rewrite all_init, length_imap.
    apply Permutation_length, sort_by_Permutation.
Qed.

(** The sort moves no element past one of its own class, when no key of the
    class is below another. *)
Lemma insert_by_class {A K} (lt : K → K → bool) (key : A → K) (p : A → bool) x l :
  (∀ y z, p y = true → p z = true → lt (key z) (key y) = false) →
  List.filter p (insert_by lt key x l)
  = if p x then x :: List.filter p l else List.filter p l.
Proof.
  intros Hclass. induction l as [|y l IH]; cbn; [by destruct (p x)|].
  destruct (lt (key y) (key x)) eqn:Hlt; cbn.
  - rewrite IH. destruct (p x) eqn:Hx, (p y) eqn:Hy; try done.
    by rewrite (Hclass x y) in Hlt.
  - done.
Qed.

Lemma sort_by_class {A K} (lt : K → K → bool) (key : A → K) (p : A → bool) l :
  (∀ y z, p y = true → p z = true → lt (key z) (key y) = false) →
  List.filter p (sort_by lt key l) = List.filter p l.
Proof.
  intros Hclass. induction l as [|x l IH]; cbn; [done|].
  unfold sort_by in IH. by rewrite insert_by_class, IH.
Qed.

Lemma eqb_trans_sym a b t :
  Float.eqb a t = true → Float.eqb b t = true → Float.eqb b a = true.
Proof. unfold Float.eqb. float_cases; qcmp. Qed.

Lemma str_ltb_irrefl ty : str_ltb (type_name ty) (type_name ty) = false.
Proof. by destruct ty. Qed.

Lemma same_key_not_below t ty y z :
  same_key t ty y = true → same_key t ty z = true →
  key_ltb (sort_key z) (sort_key y) = false.
Proof.
  unfold same_key, has_type, key_ltb; cbn.
  intros [Hy Hty]%andb_true_iff [Hz Htz]%andb_true_iff.
  apply bool_decide_eq_true in Hty, Htz.
  rewrite (eqb_trans_sym _ _ _ Hy Hz), Hty, Htz. apply str_ltb_irrefl.
Qed.

(** X4. The sort is stable: the events of [all()] that share a sort key
    (timestamps [==], same type) stand in the order in which the parsers
    emitted them, network stream first, then runtime stream, then test
    stream. *)
Theorem equal_keys_keep_emission_order (a : TraceArchive) (t : pyfloat)
    (ty : EventType) :
  unindexed <$> List.filter (same_key t ty) (EventIndex.all (EventIndex.init a))
  = unindexed <$> List.filter (same_key t ty) (parsed_events a).
Proof.
  rewrite !filter_unindexed by done. rewrite all_unindexed.
  rewrite <- !filter_unindexed by done. f_equal.
  apply sort_by_class, same_key_not_below.
Qed.

(** ** Errors *)

Lemma network_run_types a entries : ∀ i,
  Forall (λ e, has_type Network e = true) (NetworkParser.run a i entries).
Proof.
  induction entries as [|entry rest IH]; intros i; cbn; [constructor|].
  unfold NetworkParser._parse_entry.
  destruct (negb _); cbn; [apply IH|].
  constructor; [done|apply IH].
Qed.

Lemma browser_step_no_error st entry :
  Forall (λ e, has_type Error e = false) (BrowserTraceParser.step st entry).2.
Proof.
  unfold BrowserTraceParser.step. step_cases; repeat constructor.
  all: unfold BrowserTraceParser._parse_console, BrowserTraceParser._parse_action,
         BrowserTraceParser._parse_screenshot, BrowserTraceParser._parse_log,
         BrowserTraceParser._parse_input in *;
       repeat match goal with
              | H : (if ?c then _ else _) = Some _ |- _ => destruct c
              end; by simplify_eq.
Qed.

Lemma browser_run_no_error entries : ∀ st,
  Forall (λ e, has_type Error e = false) (BrowserTraceParser.run st entries).2.
Proof.
  induction entries as [|entry rest IH]; intros st; [constructor|].
  rewrite BrowserFacts.run_cons_rt; cbn [snd]. apply Forall_app. split.
  - apply browser_step_no_error.
  - apply IH.
Qed.

Lemma test_step_errors st entry :
  List.filter (has_type Error) (TestTraceParser.step st entry).2
  = if is_error_record entry
    then option_list
           (TestTraceParser._parse_error entry (TestTraceParser.error_index st))
    else [].
Proof.
  unfold TestTraceParser.step, is_error_record.
  destruct (bool_decide (k_type entry = Some "error")) eqn:He.
  - apply bool_decide_eq_true in He. rewrite He.
    rewrite !bool_decide_eq_false_2 by done.
    unfold TestTraceParser._parse_error.
    by destruct (TestTraceParser._parse_assertion _).
  - apply bool_decide_eq_false in He.
    step_cases; try done.
    all: unfold TestTraceParser._parse_test_action in *; by simplify_eq.
Qed.

Lemma test_step_error_index st entry :
  TestTraceParser.error_index (TestTraceParser.step st entry).1
  = if is_error_record entry
    then TestTraceParser.error_index st + 1
    else TestTraceParser.error_index st.
Proof.
  unfold TestTraceParser.step, is_error_record.
  destruct (bool_decide (k_type entry = Some "error")) eqn:He.
  - apply bool_decide_eq_true in He. rewrite He.
    rewrite !bool_decide_eq_false_2 by done.
    unfold TestTraceParser._parse_error.
    by destruct (TestTraceParser._parse_assertion _).
  - apply bool_decide_eq_false in He.
    step_cases; done.
Qed.

Lemma errors_only_from_run entries : ∀ st,
  TestTraceParser.errors_only_from (TestTraceParser.error_index st) entries
  = List.filter (has_type Error) (TestTraceParser.run st entries).2.
Proof.
  induction entries as [|entry rest IH]; intros st; [done|].
  rewrite TestFacts.run_cons_tt; cbn [snd].
  rewrite List.filter_app, test_step_errors, <- IH, test_step_error_index.
  cbn [TestTraceParser.errors_only_from]. fold (is_error_record entry).
  destruct (is_error_record entry); [|done].
  unfold TestTraceParser._parse_error.
  by destruct (TestTraceParser._parse_assertion _).
Qed.

Lemma errors_only_length entries : ∀ i,
  length (TestTraceParser.errors_only_from i entries)
  = length (List.filter is_error_record entries).
Proof.
  induction entries as [|entry rest IH]; intros i; cbn; [done|].
  fold (is_error_record entry). destruct (is_error_record entry); [|apply IH].
  unfold TestTraceParser._parse_error.
  destruct (TestTraceParser._parse_assertion _); cbn. by rewrite IH.
Qed.

(** X5. [parse_errors_only()] yields the error events of [parse()], the
    same events in the same order; [get_first_error()] is the first of them
    and [has_errors()] tells whether there is one. *)
Theorem errors_only_agrees_with_parse (a : TraceArchive) :
  TestTraceParser.parse_errors_only a
  = List.filter (has_type Error) (TestTraceParser.parse a)
  ∧ TestTraceParser.get_first_error a
    = head (List.filter (has_type Error) (TestTraceParser.parse a))
  ∧ TestTraceParser.has_errors a
    = bool_decide (is_Some (TestTraceParser.get_first_error a)).
Proof.
  assert (TestTraceParser.parse_errors_only a
          = List.filter (has_type Error) (TestTraceParser.parse a)) as Hp.
  { apply (errors_only_from_run _ TestTraceParser.init). }
  split; [exact Hp|]. split.
  - unfold TestTraceParser.get_first_error. by rewrite Hp.
  - unfold TestTraceParser.get_first_error, TestTraceParser.has_errors,
      TestTraceParser.parse_errors_only.
    generalize 0. fold is_error_record.
    induction (iter_test_trace a) as [|entry rest IH]; intros i; cbn; [done|].
    fold (is_error_record entry). destruct (is_error_record entry); cbn.
    + unfold TestTraceParser._parse_error.
      by destruct (TestTraceParser._parse_assertion _).
    + apply IH.
Qed.

(** The memo attributes are all the metadata accessors change. *)
Lemma start_time_keeps_streams a :
  iter_test_trace (get_trace_start_time a).2 = iter_test_trace a
  ∧ iter_browser_trace (get_trace_start_time a).2 = iter_browser_trace a
  ∧ iter_network (get_trace_start_time a).2 = iter_network a
  ∧ zf (get_trace_start_time a).2 = zf a.
Proof.
  unfold get_trace_start_time, get_context_options.
  destruct (_trace_start_time a); [done|].
  destruct (_context_options a); [done|].
  by destruct (List.find _ _).
Qed.

Lemma count_errors_parsed a :
  count_of Error (parsed_events a)
  = length (List.filter is_error_record (iter_test_trace a)).
Proof.
  unfold parsed_events, count_of. rewrite !List.filter_app, !length_app.
  rewrite (filter_none (has_type Error) (NetworkParser.parse _)).
  2:{ eapply Forall_impl; [apply network_run_types|]. intros e.
      unfold has_type. intros H%bool_decide_eq_true.
      apply bool_decide_eq_false_2. congruence. }
  rewrite (filter_none (has_type Error) (BrowserTraceParser.parse _)).
  2:{ apply browser_run_no_error. }
  cbn [length]. unfold TestTraceParser.parse.
  rewrite <- (errors_only_from_run _ TestTraceParser.init), errors_only_length.
  by rewrite (proj1 (start_time_keeps_streams a)).
Qed.

(** X6. The index has one error event for every [error] record of the test
    stream and no other; [EventIndex.has_errors()] agrees with the test
    parser's [has_errors()]. *)
Theorem index_errors_are_test_errors (a : TraceArchive) :
  let idx := EventIndex.init a in
  length (EventIndex.errors idx)
  = length (List.filter is_error_record (iter_test_trace a))
  ∧ EventIndex.has_errors idx = TestTraceParser.has_errors a.
Proof.
  cbn zeta.
  assert (length (EventIndex.errors (EventIndex.init a))
          = length (List.filter is_error_record (iter_test_trace a))) as Hlen.
  { unfold EventIndex.errors. change "error" with (type_name Error).
    rewrite by_type_filter. fold (count_of Error (EventIndex.all (EventIndex.init a))).
    by rewrite count_of_all, count_errors_parsed. }
  split; [exact Hlen|].
  unfold EventIndex.has_errors, TestTraceParser.has_errors.
  change (default [] (EventIndex._by_type
                        (EventIndex._ensure_parsed (EventIndex.init a)) !! "error"))
    with (EventIndex.errors (EventIndex.init a)).
  rewrite Hlen. clear Hlen. fold is_error_record.
  induction (iter_test_trace a) as [|entry rest IH]; cbn; [done|].
  destruct (is_error_record entry); cbn; [|exact IH].
  apply bool_decide_eq_true_2. lia.
Qed.

(** ** The closest screenshot *)

Section MinBy.
Context {A : Type} (key : A → pyfloat).

Lemma ltb_leb_trans a b c :
  Float.ltb a b = true → Float.leb b c = true → Float.ltb a c = true.
Proof. unfold Float.ltb, Float.leb. float_cases; qcmp. Qed.

Lemma leb_ltb_trans a b c :
  Float.leb a b = true → Float.ltb b c = true → Float.ltb a c = true.
Proof. unfold Float.ltb, Float.leb. float_cases; qcmp. Qed.

(** [min] returns the first element of least key: the keys before it are
    above its key, the keys after it are not below. *)
Lemma min_by_first_least rest : ∀ best,
  Forall (λ x, Float.is_nan (key x) = false) (best :: rest) →
  ∃ l1 l2,
    best :: rest = l1 ++ EventIndex.min_by key best rest :: l2
    ∧ Forall (λ x, Float.ltb (key (EventIndex.min_by key best rest)) (key x) = true) l1
    ∧ Forall (λ x, Float.leb (key (EventIndex.min_by key best rest)) (key x) = true) l2.
Proof.
  induction rest as [|x rest IH]; intros best Hnan.
  { exists [], []. by repeat split. }
  inversion Hnan as [|? ? Hbest Hrest]; subst.
  inversion Hrest as [|? ? Hx Hrest']; subst.
  cbn [EventIndex.min_by].
  destruct (Float.ltb (key x) (key best)) eqn:Hlt.
  - destruct (IH x Hrest) as (l1 & l2 & Heq & H1 & H2).
    exists (best :: l1), l2. split; [by rewrite Heq|]. split; [|done].
    constructor; [|done].
    destruct l1 as [|y l1]; cbn in Heq.
    + injection Heq as Hm _. by rewrite <- Hm.
    + injection Heq as Hy _. inversion H1 as [|? ? Hmy _].
      rewrite <- Hy in Hmy.
      eapply ltb_leb_trans; [exact Hmy|]. by apply ltb_leb.
  - assert (Forall (λ x, Float.is_nan (key x) = false) (best :: rest)) as Hbr
      by by constructor.
    destruct (IH best Hbr) as (l1 & l2 & Heq & H1 & H2).
    assert (Float.leb (key best) (key x) = true) as Hle by by apply not_ltb_leb.
    destruct l1 as [|y l1]; cbn in Heq.
    + injection Heq as Hm Hl2. exists [], (x :: l2). cbn.
      split; [by rewrite <- Hm, <- Hl2|]. split; [done|].
      constructor; [by rewrite <- Hm|done].
    + injection Heq as Hy Hr. exists (best :: x :: l1), l2. cbn.
      split; [do 2 f_equal; exact Hr|]. split; [|done].
      inversion H1 as [|? ? Hmy Hl1]. rewrite <- Hy in Hmy.
      constructor; [done|]. constructor; [|done].
      by eapply ltb_leb_trans.
Qed.
End MinBy.

Lemma all_Forall (P : Event → Prop) a :
  (∀ i e, P e → P (set_index i e)) →
  Forall P (parsed_events a) → Forall P (EventIndex.all (EventIndex.init a)).
Proof.
  intros Hset Hp. rewrite all_init. apply Forall_forall. intros e He.
  apply elem_of_lookup_imap_1 in He as (i & y & -> & Hy). apply Hset.
  rewrite <- (sort_by_Permutation key_ltb sort_key) in Hp.
  rewrite Forall_forall in Hp. apply Hp. by eapply list_elem_of_lookup_2.
Qed.

Lemma screenshots_filter a :
  EventIndex.screenshots (EventIndex.init a)
  = List.filter (has_type Screenshot) (EventIndex.all (EventIndex.init a)).
Proof. apply (by_type_filter a Screenshot). Qed.

Lemma screenshots_finite a :
  Forall (λ e, finite_stamp e = true) (EventIndex.screenshots (EventIndex.init a)).
Proof.
  rewrite screenshots_filter. apply Forall_forall. intros e He.
  apply list_elem_of_In, filter_In in He as [He Hty].
  pose proof (all_ok a) as Hok. rewrite Forall_forall in Hok.
  specialize (Hok e (proj2 (list_elem_of_In _ _) He)).
  unfold event_ok, finite_stamp, has_type in *.
  apply bool_decide_eq_true in Hty.
  destruct (timestamp_ms e); try done.
  rewrite Hty in Hok. done.
Qed.

Lemma finite_distance_not_nan t e :
  Float.is_nan t = false → finite_stamp e = true →
  Float.is_nan (distance t e) = false.
Proof.
  unfold finite_stamp, distance. by destruct (timestamp_ms e), t.
Qed.

Lemma closest_screenshot_first_least a t :
  Float.is_nan t = false →
  match EventIndex.closest_screenshot (EventIndex.init a) t with
  | None => EventIndex.screenshots (EventIndex.init a) = []
  | Some r =>
      ∃ l1 l2,
        EventIndex.screenshots (EventIndex.init a) = l1 ++ r :: l2
        ∧ Forall (λ s, Float.ltb (distance t r) (distance t s) = true) l1
        ∧ Forall (λ s, Float.leb (distance t r) (distance t s) = true) l2
  end.
Proof.
  intros Ht. unfold EventIndex.closest_screenshot.
  pose proof (screenshots_finite a) as Hfin.
  destruct (EventIndex.screenshots (EventIndex.init a)) as [|first rest]; [done|].
  apply (min_by_first_least (distance t)).
  eapply Forall_impl; [exact Hfin|]. intros e. by apply finite_distance_not_nan.
Qed.

(** X7. [closest_screenshot(t)] is [None] exactly when the index has no
    screenshot; otherwise it is a screenshot of the index at least distance
    |timestamp_ms - t|, and of several at that distance the chronologically
    first: every screenshot before it is farther from [t], none after it is
    nearer. *)
Theorem closest_screenshot_is_nearest (a : TraceArchive) (t : pyfloat) :
  Float.is_nan t = false →
  match EventIndex.closest_screenshot (EventIndex.init a) t with
  | None => EventIndex.screenshots (EventIndex.init a) = []
  | Some r =>
      ∃ l1 l2,
        EventIndex.screenshots (EventIndex.init a) = l1 ++ r :: l2
        ∧ Forall (λ s, Float.ltb (distance t r) (distance t s) = true) l1
        ∧ Forall (λ s, Float.leb (distance t r) (distance t s) = true) l2
  end.
Proof. apply closest_screenshot_first_least. Qed.

Lemma closest_screenshot_is_nearest_witness :
  Float.is_nan (Finite 20) = false
  ∧ match EventIndex.closest_screenshot (EventIndex.init frames_archive) (Finite 20) with
    | None => EventIndex.screenshots (EventIndex.init frames_archive) = []
    | Some r =>
        ∃ l1 l2,
          EventIndex.screenshots (EventIndex.init frames_archive) = l1 ++ r :: l2
          ∧ Forall (λ s, Float.ltb (distance (Finite 20) r) (distance (Finite 20) s) = true) l1
          ∧ Forall (λ s, Float.leb (distance (Finite 20) r) (distance (Finite 20) s) = true) l2
    end.
Proof.
  split; [reflexivity|].
  apply (closest_screenshot_is_nearest frames_archive (Finite 20)). reflexivity.
Defined.

Example sample_closest :
  (λ e, (index e, timestamp_ms e))
    <$> EventIndex.closest_screenshot (EventIndex.init frames_archive) (Finite 25)
  = Some (2, Finite 20).
Proof. vm_compute. reflexivity. Qed.

(** ** Range queries as slices *)

Lemma before_scan_prefix t events :
  EventIndex.before_scan t events `prefix_of` events.
Proof.
  induction events as [|x l IH]; cbn; [done|].
  destruct (Float.leb _ _); [by apply prefix_cons|apply prefix_nil].
Qed.

Lemma filter_all {A} (f : A → bool) l :
  Forall (λ x, f x = true) l → List.filter f l = l.
Proof. induction 1 as [|x l Hx _ IH]; cbn; [done|]. by rewrite Hx, IH. Qed.

Lemma filter_from_suffix t events :
  StronglySorted stamp_le events →
  List.filter (λ ev, Float.leb t (timestamp_ms ev)) events `suffix_of` events.
Proof.
  induction 1 as [|x l Hs IH Hx]; cbn; [done|].
  destruct (Float.leb t (timestamp_ms x)) eqn:E.
  - rewrite filter_all; [done|].
    eapply Forall_impl; [exact Hx|]. intros y Hxy. by eapply leb_trans.
  - by apply suffix_cons_r.
Qed.

(** X8. On the sorted index the range queries return slices of [all()]:
    [before(t)] is a prefix, [after(t)] is a suffix, and [in_range(s, e)]
    is a run of consecutive events. *)
Theorem range_queries_are_slices (a : TraceArchive) (s e t : pyfloat) :
  let idx := EventIndex.init a in
  EventIndex.before idx t `prefix_of` EventIndex.all idx
  ∧ EventIndex.after idx t `suffix_of` EventIndex.all idx
  ∧ ∃ earlier later,
      EventIndex.all idx = earlier ++ EventIndex.in_range idx s e ++ later.
Proof.
  cbn zeta. split; [apply before_scan_prefix|]. split.
  - unfold EventIndex.after. rewrite after_scan_filter.
    apply filter_from_suffix, all_StronglySorted.
  - rewrite in_range_is_filter_gen.
    pose proof (all_StronglySorted a) as Hs.
    destruct (filter_from_suffix s _ Hs) as [earlier Hsuf].
    set (from := List.filter _ _) in Hsuf.
    assert (StronglySorted stamp_le from) as Hfrom.
    { rewrite Hsuf in Hs. by apply StronglySorted_app_1_r in Hs. }
    destruct (before_scan_prefix e from) as [later Hpre].
    exists earlier, later.
    rewrite Hsuf at 1. f_equal. rewrite Hpre at 1. f_equal.
    rewrite before_scan_filter by done. unfold from.
    rewrite filter_filter. apply filter_ext. intros ev. apply andb_comm.
Qed.

(** ** Payloads *)

Lemma browser_step_payload st entry :
  Forall payload_ok (BrowserTraceParser.step st entry).2.
Proof.
  unfold BrowserTraceParser.step. step_cases; repeat constructor.
  all: unfold BrowserTraceParser._parse_console, BrowserTraceParser._parse_action,
         BrowserTraceParser._parse_screenshot, BrowserTraceParser._parse_log,
         BrowserTraceParser._parse_input in *;
       repeat match goal with
              | H : (if ?c then _ else _) = Some _ |- _ => destruct c eqn:?
              end; simplify_eq; unfold payload_ok; cbn; auto.
  repeat split. by destruct (truthy _).
Qed.

Lemma browser_run_payload entries : ∀ st,
  Forall payload_ok (BrowserTraceParser.run st entries).2.
Proof.
  induction entries as [|entry rest IH]; intros st; [constructor|].
  rewrite BrowserFacts.run_cons_rt; cbn [snd]. apply Forall_app. split.
  - apply browser_step_payload.
  - apply IH.
Qed.

Lemma test_step_payload st entry :
  Forall payload_ok (TestTraceParser.step st entry).2.
Proof.
  unfold TestTraceParser.step, TestTraceParser._parse_error.
  destruct (TestTraceParser._parse_assertion _).
  step_cases; try (by apply List.Forall_nil); apply Forall_singleton.
  all: unfold TestTraceParser._parse_test_action in *; simplify_eq;
       unfold payload_ok; cbn; auto.
Qed.

Lemma test_run_payload entries : ∀ st,
  Forall payload_ok (TestTraceParser.run st entries).2.
Proof.
  induction entries as [|entry rest IH]; intros st; [constructor|].
  rewrite TestFacts.run_cons_tt; cbn [snd]. apply Forall_app. split.
  - apply test_step_payload.
  - apply IH.
Qed.

Lemma network_run_payload a entries : ∀ i,
  Forall payload_ok (NetworkParser.run a i entries).
Proof.
  induction entries as [|entry rest IH]; intros i; cbn; [constructor|].
  unfold NetworkParser._parse_entry.
  destruct (negb _); cbn; [apply IH|].
  constructor; [done|apply IH].
Qed.

(** X9. Every event of the index carries exactly the payload of its type
    (none for [log] and [input]) and names the stream it was read from; a
    screenshot event names a non-empty hash and the path
    [resources/<hash>]. *)
Theorem events_carry_their_payload (a : TraceArchive) :
  Forall payload_ok (EventIndex.all (EventIndex.init a)).
Proof.
  apply all_Forall; [done|].
  unfold parsed_events. repeat apply Forall_app_2.
  - apply network_run_payload.
  - apply browser_run_payload.
  - apply test_run_payload.
Qed.

(** ** The approximate error time *)

Lemma finite_not_infinite e : infinite_stamp e = true → finite_stamp e = false.
Proof. unfold infinite_stamp, finite_stamp. by destruct (timestamp_ms e). Qed.

Lemma filter_finite_split timed untimed :
  Forall (λ e, finite_stamp e = true) timed →
  Forall (λ e, infinite_stamp e = true) untimed →
  List.filter finite_stamp (timed ++ untimed) = timed.
Proof.
  intros Ht Hu. rewrite List.filter_app, (filter_all _ _ Ht), filter_none.
  - apply app_nil_r.
  - eapply Forall_impl; [exact Hu|]. apply finite_not_infinite.
Qed.


(** The approximate error time bounds every finite timestamp. *)
Lemma error_time_bounds a :
  match ErrorsCommand.error_time (EventIndex.init a) with
  | None => Forall (λ e, infinite_stamp e = true) (EventIndex.all (EventIndex.init a))
  | Some m =>
      Float.is_finite m = true
      ∧ Forall (λ e, finite_stamp e = true → Float.leb (timestamp_ms e) m = true)
          (EventIndex.all (EventIndex.init a))
  end.
Proof.
  unfold ErrorsCommand.error_time.
  rewrite (finite_filter_agree _ (all_ok a)).
  destruct (infinite_tail _ (all_ok a) (all_StronglySorted a))
    as (timed & untimed & Hall & Ht & Hu).
  pose proof (all_StronglySorted a) as Hs.
  rewrite Hall, (filter_finite_split _ _ Ht Hu).
  destruct (last timed) as [x|] eqn:Hlast; cbn.
  2:{ apply last_None in Hlast. by subst. }
  apply last_Some in Hlast as [l' ->].
  assert (finite_stamp x = true) as Hx.
  { rewrite Forall_app in Ht. destruct Ht as [_ Ht]. by inversion Ht. }
  split; [exact Hx|].
  rewrite Hall in Hs. apply Forall_app. split.
  - apply StronglySorted_app_1_l in Hs. apply Forall_app. split.
    + apply Forall_forall. intros e He _.
      apply (StronglySorted_app_1_elem_of _ _ _ e x Hs He). apply list_elem_of_here.
    + constructor; [|constructor]. intros _. apply leb_refl.
      unfold finite_stamp in Hx. by destruct (timestamp_ms x).
  - eapply Forall_impl; [exact Hu|]. intros e He Hfin.
    by rewrite (finite_not_infinite e He) in Hfin.
Qed.


Example sample_error_time :
  ErrorsCommand.error_time (EventIndex.init frames_archive) = Some (Finite 40)
  ∧ (λ e, timestamp_ms e)
      <$> EventIndex.closest_screenshot (EventIndex.init frames_archive) (Finite 40)
    = Some (Finite 30).
Proof. by vm_compute. Qed.

(** ** Filters and pages of the events command *)

Lemma skip_from_drop {A} (items : list A) : ∀ i n,
  0 ≤ i →
  EventsCommand.skip_from i items n = drop (Z.to_nat (n - i)) items.
Proof.
  induction items as [|x l IH]; intros i n Hi; cbn; [by rewrite drop_nil|].
  rewrite IH by lia.
  destruct (i >=? n) eqn:E.
  - replace (Z.to_nat (n - i)) with 0%nat by lia.
    replace (Z.to_nat (n - (i + 1))) with 0%nat by lia. done.
  - replace (Z.to_nat (n - i)) with (S (Z.to_nat (n - (i + 1)))) by lia. done.
Qed.

Lemma take_from_take {A} (items : list A) : ∀ i n,
  0 ≤ i →
  EventsCommand.take_from i items n = take (Z.to_nat (n - i)) items.
Proof.
  induction items as [|x l IH]; intros i n Hi; cbn; [by rewrite take_nil|].
  destruct (i >=? n) eqn:E.
  - by replace (Z.to_nat (n - i)) with 0%nat by lia.
  - replace (Z.to_nat (n - i)) with (S (Z.to_nat (n - (i + 1)))) by lia.
    cbn. by rewrite IH by lia.
Qed.

(** X11. [_skip] drops and [_take] keeps the first [n] items, none for a
    negative [n]; for every [n] the two split the sequence, so pages of equal
    size tile it.  In [run] an offset or limit of 0 counts as absent: a limit
    of 0 returns everything after the offset. *)
Theorem pages_tile_the_sequence {A} (items : list A) (n : Z) (offset : option Z) :
  EventsCommand._skip items n = drop (Z.to_nat n) items
  ∧ EventsCommand._take items n = take (Z.to_nat n) items
  ∧ EventsCommand._take items n ++ EventsCommand._skip items n = items
  ∧ EventsCommand.paginate items offset (Some 0)
    = drop (Z.to_nat (default 0 offset)) items
  ∧ (n ≠ 0 →
     EventsCommand.paginate items offset (Some n)
     = take (Z.to_nat n) (drop (Z.to_nat (default 0 offset)) items)).
Proof.
  assert (∀ B (l : list B) k, EventsCommand._skip l k = drop (Z.to_nat k) l) as Hskip.
  { intros B l k. unfold EventsCommand._skip. rewrite skip_from_drop by lia.
    by rewrite Z.sub_0_r. }
  assert (∀ B (l : list B) k, EventsCommand._take l k = take (Z.to_nat k) l) as Htake.
  { intros B l k. unfold EventsCommand._take. rewrite take_from_take by lia.
    by rewrite Z.sub_0_r. }
  assert (∀ o : option Z,
            match o with
            | Some k => if k =? 0 then items else EventsCommand._skip items k
            | None => items
            end = drop (Z.to_nat (default 0 o)) items) as Hoff.
  { intros [k|]; cbn; [|done]. destruct (k =? 0) eqn:E; [|apply Hskip].
    apply Z.eqb_eq in E. by subst. }
  split; [apply Hskip|]. split; [apply Htake|].
  split; [rewrite Hskip, Htake; apply take_drop|].
  split.
  - unfold EventsCommand.paginate. cbn. apply Hoff.
  - intros Hn. unfold EventsCommand.paginate.
    rewrite (proj2 (Z.eqb_neq n 0) Hn), Htake. f_equal. apply Hoff.
Qed.

Lemma pages_tile_the_sequence_witness :
  (3 ≠ 0)
  ∧ EventsCommand.paginate [10; 20; 30; 40; 50; 60; 70] (Some 2) (Some 3)
    = take (Z.to_nat 3) (drop (Z.to_nat (default 0 (Some 2))) [10; 20; 30; 40; 50; 60; 70]).
Proof.
  split; [lia|].
  apply (pages_tile_the_sequence [10; 20; 30; 40; 50; 60; 70] 3 (Some 2)). lia.
Defined.

Lemma codepoints_type_name_inj t1 t2 :
  codepoints (type_name t1) = codepoints (type_name t2) → t1 = t2.
Proof. by destruct t1, t2. Qed.

Lemma split_type_name ty :
  TestTraceParser.strip <$> EventsCommand.split_comma (codepoints (type_name ty))
  = [codepoints (type_name ty)].
Proof. by destruct ty. Qed.

(** X12. The filters of the events command are the queries of the index:
    with both time bounds they select [in_range(after, before)], with one
    bound [after(t)] or [before(t)], and with a single type name
    [by_type(name)]; without arguments they pass [all()] on. *)
Theorem filter_events_matches_queries (a : TraceArchive) (s e : pyfloat)
    (ty : EventType) :
  let idx := EventIndex.init a in
  EventsCommand._filter_events idx None None None = EventIndex.all idx
  ∧ EventsCommand._filter_events idx None (Some s) None = EventIndex.after idx s
  ∧ EventsCommand._filter_events idx None None (Some e) = EventIndex.before idx e
  ∧ EventsCommand._filter_events idx None (Some s) (Some e)
    = EventIndex.in_range idx s e
  ∧ EventsCommand._filter_events idx (Some (codepoints (type_name ty))) None None
    = EventIndex.by_type idx (type_name ty).
Proof.
  cbn zeta. unfold EventsCommand._filter_events.
  split; [done|]. split; [symmetry; apply after_scan_filter|].
  split; [symmetry; apply before_scan_filter, all_StronglySorted|].
  split.
  - rewrite in_range_is_filter_gen, filter_filter.
    apply filter_ext. intros ev. apply andb_comm.
  - rewrite by_type_filter.
    destruct (codepoints (type_name ty)) as [|c text] eqn:Hcp.
    { by destruct ty. }
    rewrite <- Hcp, split_type_name. apply filter_ext. intros ev.
    unfold has_type. apply bool_decide_ext. rewrite list_elem_of_singleton.
    split; [apply codepoints_type_name_inj|by intros ->].
Qed.

(** ** Memo attributes and member listings of the archive *)

Lemma context_options_fresh a :
  _context_options a = None →
  get_context_options a
  = (default empty_entry (List.find (is_type "context-options") (iter_browser_trace a)),
     set_context_options a
       (default empty_entry
          (List.find (is_type "context-options") (iter_browser_trace a)))).
Proof.
  intros Hnone. unfold get_context_options. rewrite Hnone.
  by destruct (List.find _ _).
Qed.

Lemma context_options_memo a ctx :
  _context_options a = Some ctx → get_context_options a = (ctx, a).
Proof. intros Hsome. unfold get_context_options. by rewrite Hsome. Qed.

(** X13. The metadata of a freshly opened archive is read once: the first
    [get_trace_start_time()] finds the first [context-options] record of the
    runtime stream (the empty record if there is none) and stores it; from
    then on every accessor answers from the stored record and leaves the
    archive as it is. *)
Theorem metadata_is_memoized files (runtime tests : list Entry)
    (net : list NetEntry) :
  let a := open_archive files runtime tests net in
  let ctx := default empty_entry (List.find (is_type "context-options") runtime) in
  let a1 := (get_trace_start_time a).2 in
  (get_trace_start_time a).1 = get (k_monotonicTime ctx) 0%Q
  ∧ _context_options a1 = Some ctx
  ∧ _trace_start_time a1 = Some (get (k_monotonicTime ctx) 0%Q)
  ∧ get_context_options a1 = (ctx, a1)
  ∧ get_trace_start_time a1 = (get (k_monotonicTime ctx) 0%Q, a1)
  ∧ get_wall_time a1 = (get (k_wallTime ctx) 0%Q, a1)
  ∧ get_test_name a1 = (get (k_title ctx) EmptyString, a1)
  ∧ get_browser_name a1 = (get (k_browserName ctx) EmptyString, a1)
  ∧ get_viewport a1 = (get (k_viewport ctx) (0, 0), a1).
Proof.
  intros a ctx a1.
  assert (get_trace_start_time a
          = (get (k_monotonicTime ctx) 0%Q,
             set_trace_start_time (set_context_options a ctx)
               (get (k_monotonicTime ctx) 0%Q))) as Hfirst.
  { unfold get_trace_start_time. cbn [_trace_start_time a open_archive].
    by rewrite (context_options_fresh a). }
  assert (get_context_options a1 = (ctx, a1)) as Hctx.
  { apply context_options_memo. unfold a1. by rewrite Hfirst. }
  unfold get_wall_time, get_test_name, get_browser_name, get_viewport.
  rewrite Hctx. repeat split; try done; try (unfold a1; by rewrite Hfirst).
Qed.

Lemma list_files_lookup a name : name ∈ list_files a ↔ is_Some (zf a !! name).
Proof.
  unfold list_files. rewrite list_elem_of_fmap. split.
  - intros [[k data] [-> Hin]]. apply elem_of_map_to_list in Hin. by exists data.
  - intros [data Hdata]. exists (name, data). split; [done|].
    by apply elem_of_map_to_list.
Qed.

Lemma prefix_app s1 s2 s :
  String.prefix (String.append s1 s2) s = true → String.prefix s1 s = true.
Proof.
  revert s. induction s1 as [|c s1 IH]; intros s; [by destruct s|].
  destruct s as [|c' s]; [done|].
  change (String c s1 +:+ s2) with (String c (s1 +:+ s2)).
  cbn [String.prefix]. destruct (Ascii.ascii_dec c c'); [apply IH|done].
Qed.

Lemma listed_is_member (p : string → bool) a name :
  name ∈ List.filter p (list_files a) → p name = true ∧ is_Some (zf a !! name).
Proof.
  intros Hin. apply list_elem_of_In, filter_In in Hin as [Hin Hp].
  split; [done|]. by apply list_files_lookup, list_elem_of_In.
Qed.

(** X14. [has_file] tells whether [read_raw] succeeds: on a member it
    returns the bytes, on any other name it raises [KeyError].  Every name
    that [list_screenshots] or [list_source_files] returns is a member under
    [resources/], so [get_resource] returns its bytes under that very
    name. *)
Theorem listed_resources_are_readable (a : TraceArchive) :
  (∀ name, match read_raw a name with
           | Return data => has_file a name = true ∧ zf a !! name = Some data
           | Raise e => has_file a name = false ∧ e = KeyError name
           end)
  ∧ Forall (λ name, has_file a name = true
                    ∧ get_resource a name = read_raw a name
                    ∧ ∃ data, get_resource a name = Return data)
      (list_screenshots a ++ list_source_files a).
Proof.
  split.
  - intros name. unfold read_raw, zf_read, has_file.
    destruct (zf a !! name) as [data|] eqn:Hname.
    + split; [|done]. apply bool_decide_eq_true_2, list_files_lookup. by exists data.
    + split; [|done]. apply bool_decide_eq_false_2. rewrite list_files_lookup, Hname.
      by intros [? ?].
  - assert (∀ name, startswith "resources/" name = true → is_Some (zf a !! name) →
                    has_file a name = true
                    ∧ get_resource a name = read_raw a name
                    ∧ ∃ data, get_resource a name = Return data) as Hres.
    { intros name Hpre [data Hdata]. split.
      - apply bool_decide_eq_true_2, list_files_lookup. by exists data.
      - unfold get_resource, read_raw. rewrite Hpre. split; [done|].
        exists data. unfold zf_read. by rewrite Hdata. }
    apply Forall_app. unfold list_screenshots, list_source_files.
    split; apply Forall_forall; intros name Hin;
      apply listed_is_member in Hin as [Hp Hmem];
      apply andb_true_iff in Hp as [Hp _]; (apply Hres; [|done]).
    + apply (prefix_app "resources/" "page@"), Hp.
    + apply (prefix_app "resources/" "src@"), Hp.
Qed.

Example sample_listing :
  let a := open_archive
             {[ "resources/page@1-2.jpeg" := [Byte.xff; Byte.xd8];
                "resources/src@ab.txt" := [Byte.x68; Byte.x69];
                "resources/ab.json" := [];
                "page@3.jpeg" := [] ]} [] [] [] in
  list_screenshots a = ["resources/page@1-2.jpeg"]
  ∧ list_source_files a = ["resources/src@ab.txt"]
  ∧ get_resource_text a "src@ab.txt" = Return (Some (codepoints "hi"))
  ∧ has_file a "resources/page@3.jpeg" = false.
Proof. by vm_compute. Qed.

(** ** Records and events, stream by stream *)

Lemma run_project_rt {B} (proj : Event → B) ty (p : Entry → bool) (h : Entry → B) :
  (∀ st r, proj <$> List.filter (has_type ty) (BrowserTraceParser.step st r).2
           = if p r then [h r] else []) →
  ∀ l st, proj <$> List.filter (has_type ty) (BrowserTraceParser.run st l).2
          = h <$> List.filter p l.
Proof.
  intros Hstep. induction l as [|r l IH]; intros st; [done|].
  rewrite BrowserFacts.run_cons_rt; cbn [snd List.filter].
  rewrite List.filter_app, fmap_app, Hstep, IH. by destruct (p r).
Qed.

Ltac parsed_cases :=
  step_cases;
  unfold BrowserTraceParser._parse_console, BrowserTraceParser._parse_action,
    BrowserTraceParser._parse_screenshot, BrowserTraceParser._parse_log,
    BrowserTraceParser._parse_input, TestTraceParser._parse_test_action,
    TestTraceParser._parse_error in *;
  repeat match goal with
         | H : context [TestTraceParser._parse_assertion ?m] |- _ =>
             destruct (TestTraceParser._parse_assertion m)
         | H : (if ?c then _ else _) = Some _ |- _ => destruct c eqn:?
         | H : (if ?c then _ else _) = None |- _ => destruct c eqn:?
         end;
  simplify_eq.

Ltac bool_facts :=
  repeat match goal with
         | H : bool_decide _ = true |- _ => apply bool_decide_eq_true in H
         | H : bool_decide _ = false |- _ => apply bool_decide_eq_false in H
         | H : _ && _ = true |- _ => apply andb_true_iff in H as [? ?]
         | H : _ && _ = false |- _ => apply andb_false_iff in H as [?|?]
         end.

Lemma step_console_rt st r :
  stamped <$> List.filter (has_type Console) (BrowserTraceParser.step st r).2
  = if is_type "console" r
    then [(Finite (get (k_time r) 0%Q), RawEntry r)] else [].
Proof. unfold BrowserTraceParser.step, is_type. parsed_cases; done. Qed.

Lemma step_log_rt st r :
  stamped <$> List.filter (has_type Log) (BrowserTraceParser.step st r).2
  = if is_type "log" r
    then [(Finite (get (k_time r) 0%Q), RawEntry r)] else [].
Proof. unfold BrowserTraceParser.step, is_type. parsed_cases; done. Qed.

Lemma step_input_rt st r :
  stamped <$> List.filter (has_type Input) (BrowserTraceParser.step st r).2
  = if is_type "input" r then [(Finite 0%Q, RawEntry r)] else [].
Proof. unfold BrowserTraceParser.step, is_type. parsed_cases; done. Qed.

Lemma step_frame_rt st r :
  stamped <$> List.filter (has_type Screenshot) (BrowserTraceParser.step st r).2
  = if is_type "screencast-frame" r && truthy (get (k_sha1 r) EmptyString)
    then [(Finite (get (k_timestamp r) 0%Q), RawEntry r)] else [].
Proof.
  unfold BrowserTraceParser.step, is_type. parsed_cases; try done.
  all: by destruct (truthy _).
Qed.

Lemma network_run_stamped a entries : ∀ i,
  stamped <$> NetworkParser.run a i entries
  = (λ r, (Finite (NetworkParser._parse_timestamp a
                     (get (n_snapshot r) empty_snapshot)), RawNet r))
      <$> List.filter (λ r, bool_decide (n_type r = Some "resource-snapshot")) entries.
Proof.
  induction entries as [|r rest IH]; intros i; [done|].
  cbn [NetworkParser.run List.filter]. unfold NetworkParser._parse_entry.
  destruct (bool_decide (n_type r = Some "resource-snapshot")); cbn; [|apply IH].
  by rewrite IH.
Qed.

Lemma step_error_tt st r :
  stamped <$> List.filter (has_type Error) (TestTraceParser.step st r).2
  = if is_error_record r then [(PosInf, RawEntry r)] else [].
Proof.
  rewrite test_step_errors. destruct (is_error_record r); [|done].
  unfold TestTraceParser._parse_error.
  by destruct (TestTraceParser._parse_assertion _).
Qed.

Lemma run_error_tt l : ∀ st,
  stamped <$> List.filter (has_type Error) (TestTraceParser.run st l).2
  = (λ r, (PosInf, RawEntry r)) <$> List.filter is_error_record l.
Proof.
  induction l as [|r l IH]; intros st; [done|].
  rewrite TestFacts.run_cons_tt; cbn [snd List.filter].
  rewrite List.filter_app, fmap_app, step_error_tt, IH.
  by destruct (is_error_record r).
Qed.

(** X15. Records that need no partner become events one for one and in
    stream order, each event keeping its record as [raw]: a console or log
    record is stamped with its [time], an input record with 0, a
    screencast frame with its [timestamp] (frames without a hash give no
    event), a resource snapshot with its parsed timestamp, and an error
    record of the test stream with the infinite sentinel.  A missing time
    reads as 0. *)
Theorem single_records_become_events (a : TraceArchive) :
  let runtime := BrowserTraceParser.parse a in
  stamped <$> List.filter (has_type Console) runtime
  = (λ r, (Finite (get (k_time r) 0%Q), RawEntry r))
      <$> List.filter (is_type "console") (iter_browser_trace a)
  ∧ stamped <$> List.filter (has_type Log) runtime
    = (λ r, (Finite (get (k_time r) 0%Q), RawEntry r))
        <$> List.filter (is_type "log") (iter_browser_trace a)
  ∧ stamped <$> List.filter (has_type Input) runtime
    = (λ r, (Finite 0%Q, RawEntry r))
        <$> List.filter (is_type "input") (iter_browser_trace a)
  ∧ stamped <$> List.filter (has_type Screenshot) runtime
    = (λ r, (Finite (get (k_timestamp r) 0%Q), RawEntry r))
        <$> List.filter (λ r, is_type "screencast-frame" r
                              && truthy (get (k_sha1 r) EmptyString))
              (iter_browser_trace a)
  ∧ stamped <$> NetworkParser.parse a
    = (λ r, (Finite (NetworkParser._parse_timestamp a
                       (get (n_snapshot r) empty_snapshot)), RawNet r))
        <$> List.filter (λ r, bool_decide (n_type r = Some "resource-snapshot"))
              (iter_network a)
  ∧ stamped <$> List.filter (has_type Error) (TestTraceParser.parse a)
    = (λ r, (PosInf, RawEntry r))
        <$> List.filter is_error_record (iter_test_trace a).
Proof.
  cbn zeta. unfold BrowserTraceParser.parse.
  split; [apply run_project_rt, step_console_rt|].
  split; [apply run_project_rt, step_log_rt|].
  split; [apply run_project_rt, step_input_rt|].
  split; [apply (run_project_rt stamped Screenshot), step_frame_rt|].
  split; [apply network_run_stamped|apply run_error_tt].
Qed.

(** ** How many spans a stream can give *)

Lemma size_after_delete (m : gmap string Entry) k b :
  m !! k = Some b → (S (size (delete k m)) = size m)%nat.
Proof.
  intros Hk. rewrite map_size_delete, Hk.
  pose proof (map_size_ne_0_lookup_2 m k (mk_is_Some _ _ Hk)). lia.
Qed.

Lemma size_after_insert (m : gmap string Entry) k b :
  (size (<[k := b]> m) ≤ S (size m))%nat.
Proof. rewrite map_size_insert. destruct (m !! k); cbn; lia. Qed.

Lemma step_spans_rt st r :
  (length (List.filter (has_type Action) (BrowserTraceParser.step st r).2)
   + size (BrowserTraceParser._before_events (BrowserTraceParser.step st r).1)
   ≤ size (BrowserTraceParser._before_events st)
     + length (List.filter (opens_span call_id_of) [r]))%nat
  ∧ (length (List.filter (has_type Action) (BrowserTraceParser.step st r).2)
     ≤ length (List.filter (is_type "after") [r]))%nat.
Proof.
  unfold BrowserTraceParser.step, opens_span, is_type, call_id_of.
  parsed_cases; cbn; try lia; bool_facts; try congruence.
  all: try match goal with
           | H : _ !! _ = Some _ |- _ => pose proof (size_after_delete _ _ _ H)
           end;
       try match goal with
           | |- context [size (<[?k := ?b]> ?m)] =>
               pose proof (size_after_insert m k b)
           end; lia.
Qed.

Lemma run_spans_rt l : ∀ st,
  (length (List.filter (has_type Action) (BrowserTraceParser.run st l).2)
   + size (BrowserTraceParser._before_events (BrowserTraceParser.run st l).1)
   ≤ size (BrowserTraceParser._before_events st)
     + length (List.filter (opens_span call_id_of) l))%nat
  ∧ (length (List.filter (has_type Action) (BrowserTraceParser.run st l).2)
     ≤ length (List.filter (is_type "after") l))%nat.
Proof.
  induction l as [|r l IH]; intros st; [cbn; lia|].
  rewrite BrowserFacts.run_cons_rt; cbn [fst snd].
  rewrite List.filter_app, length_app.
  destruct (step_spans_rt st r) as [H1 H2].
  destruct (IH (BrowserTraceParser.step st r).1) as [H3 H4].
  change (r :: l) with ([r] ++ l). rewrite !List.filter_app, !length_app. lia.
Qed.

Lemma step_spans_tt st r :
  (length (List.filter (has_type Action) (TestTraceParser.step st r).2)
   + size (TestTraceParser._before_events (TestTraceParser.step st r).1)
   ≤ size (TestTraceParser._before_events st)
     + length (List.filter (opens_span TestTraceParser.step_id_of) [r]))%nat
  ∧ (length (List.filter (has_type Action) (TestTraceParser.step st r).2)
     ≤ length (List.filter (is_type "after") [r]))%nat.
Proof.
  unfold TestTraceParser.step, opens_span, is_type.
  parsed_cases; cbn; try lia; bool_facts; try congruence.
  all: try match goal with
           | H : _ !! _ = Some _ |- _ => pose proof (size_after_delete _ _ _ H)
           end;
       try match goal with
           | |- context [size (<[?k := ?b]> ?m)] =>
               pose proof (size_after_insert m k b)
           end; lia.
Qed.

Lemma run_spans_tt l : ∀ st,
  (length (List.filter (has_type Action) (TestTraceParser.run st l).2)
   + size (TestTraceParser._before_events (TestTraceParser.run st l).1)
   ≤ size (TestTraceParser._before_events st)
     + length (List.filter (opens_span TestTraceParser.step_id_of) l))%nat
  ∧ (length (List.filter (has_type Action) (TestTraceParser.run st l).2)
     ≤ length (List.filter (is_type "after") l))%nat.
Proof.
  induction l as [|r l IH]; intros st; [cbn; lia|].
  rewrite TestFacts.run_cons_tt; cbn [fst snd].
  rewrite List.filter_app, length_app.
  destruct (step_spans_tt st r) as [H1 H2].
  destruct (IH (TestTraceParser.step st r).1) as [H3 H4].
  change (r :: l) with ([r] ++ l). rewrite !List.filter_app, !length_app. lia.
Qed.

(** X16. Spans need both halves: a stream gives at most one action per
    [after] record, and the actions together with the [before] records
    still pending at the end of the stream are at most the [before] records
    that carry a non-empty key.  This holds for the runtime stream (key
    [callId]) and for the test stream (key [stepId], else [callId]). *)
Theorem actions_bounded_by_halves (a : TraceArchive) :
  let runtime := BrowserTraceParser.run BrowserTraceParser.init (iter_browser_trace a) in
  let tests := TestTraceParser.run TestTraceParser.init (iter_test_trace a) in
  (count_of Action (BrowserTraceParser.parse a)
   ≤ length (List.filter (is_type "after") (iter_browser_trace a)))%nat
  ∧ (count_of Action (BrowserTraceParser.parse a)
     + size (BrowserTraceParser._before_events runtime.1)
     ≤ length (List.filter (opens_span call_id_of) (iter_browser_trace a)))%nat
  ∧ (count_of Action (TestTraceParser.parse a)
     ≤ length (List.filter (is_type "after") (iter_test_trace a)))%nat
  ∧ (count_of Action (TestTraceParser.parse a)
     + size (TestTraceParser._before_events tests.1)
     ≤ length (List.filter (opens_span TestTraceParser.step_id_of)
                 (iter_test_trace a)))%nat.
Proof.
  cbn zeta. unfold count_of, BrowserTraceParser.parse, TestTraceParser.parse.
  destruct (run_spans_rt (iter_browser_trace a) BrowserTraceParser.init) as [H1 H2].
  destruct (run_spans_tt (iter_test_trace a) TestTraceParser.init) as [H3 H4].
  cbn [BrowserTraceParser._before_events BrowserTraceParser.init
       TestTraceParser._before_events TestTraceParser.init] in H1, H3.
  rewrite map_size_empty in H1, H3. lia.
Qed.

(** ** Parser-local numbering *)

Lemma numbered_from_nil c : numbered_from c [].
Proof. done. Qed.

Lemma numbered_from_app c l1 l2 :
  numbered_from c l1 → numbered_from (c + Z.of_nat (length l1)) l2 →
  numbered_from c (l1 ++ l2).
Proof.
  unfold numbered_from. intros H1 H2.
  rewrite fmap_app, length_app, seq_app, fmap_app, H1, H2. f_equal.
  replace (0 + length l1)%nat with (length l1 + 0)%nat by lia.
  rewrite <- (fmap_add_seq (length l1) 0), <- list_fmap_compose.
  apply list_fmap_ext. intros _ i _. cbn. lia.
Qed.

Lemma numbered_from_one c e : index e = c → numbered_from c [e].
Proof. intros <-. unfold numbered_from. cbn. f_equal. lia. Qed.

Lemma step_numbered_rt ty st r :
  numbered_from (counter_rt ty st)
    (List.filter (has_type ty) (BrowserTraceParser.step st r).2)
  ∧ counter_rt ty (BrowserTraceParser.step st r).1
    = counter_rt ty st
      + Z.of_nat (length (List.filter (has_type ty) (BrowserTraceParser.step st r).2)).
Proof.
  unfold BrowserTraceParser.step.
  destruct ty; parsed_cases; cbn; split;
    try apply numbered_from_nil; try (by apply numbered_from_one); lia.
Qed.

Lemma run_numbered_rt ty l : ∀ st,
  numbered_from (counter_rt ty st)
    (List.filter (has_type ty) (BrowserTraceParser.run st l).2).
Proof.
  induction l as [|r l IH]; intros st; [apply numbered_from_nil|].
  rewrite BrowserFacts.run_cons_rt; cbn [snd]. rewrite List.filter_app.
  destruct (step_numbered_rt ty st r) as [H1 H2].
  apply numbered_from_app; [exact H1|]. rewrite <- H2. apply IH.
Qed.

Lemma step_numbered_tt ty st r :
  numbered_from (counter_tt ty st)
    (List.filter (has_type ty) (TestTraceParser.step st r).2)
  ∧ counter_tt ty (TestTraceParser.step st r).1
    = counter_tt ty st
      + Z.of_nat (length (List.filter (has_type ty) (TestTraceParser.step st r).2)).
Proof.
  unfold TestTraceParser.step.
  destruct ty; parsed_cases; cbn; split;
    try apply numbered_from_nil; try (by apply numbered_from_one); lia.
Qed.

Lemma run_numbered_tt ty l : ∀ st,
  numbered_from (counter_tt ty st)
    (List.filter (has_type ty) (TestTraceParser.run st l).2).
Proof.
  induction l as [|r l IH]; intros st; [apply numbered_from_nil|].
  rewrite TestFacts.run_cons_tt; cbn [snd]. rewrite List.filter_app.
  destruct (step_numbered_tt ty st r) as [H1 H2].
  apply numbered_from_app; [exact H1|]. rewrite <- H2. apply IH.
Qed.

Lemma network_run_numbered a entries : ∀ i,
  numbered_from i (NetworkParser.run a i entries).
Proof.
  induction entries as [|r rest IH]; intros i; [apply numbered_from_nil|].
  cbn [NetworkParser.run]. unfold NetworkParser._parse_entry.
  destruct (negb _); [apply IH|].
  apply (numbered_from_app i [_]); [by apply numbered_from_one|apply IH].
Qed.

(** X17. Each parser numbers its events per type: the events of one type
    that a stream gives carry the indices 0, 1, 2, ... in the order in
    which they are emitted, whatever other events lie between them. *)
Theorem parser_indices_are_dense (a : TraceArchive) (ty : EventType) :
  dense (NetworkParser.parse a)
  ∧ dense (List.filter (has_type ty) (BrowserTraceParser.parse a))
  ∧ dense (List.filter (has_type ty) (TestTraceParser.parse a)).
Proof.
  split; [apply network_run_numbered|].
  split.
  - pose proof (run_numbered_rt ty (iter_browser_trace a) BrowserTraceParser.init) as H.
    by destruct ty.
  - pose proof (run_numbered_tt ty (iter_test_trace a) TestTraceParser.init) as H.
    by destruct ty.
Qed.

(** ** Error messages *)

Lemma escape_length_other c rest :
  c ≠ 27%N → TestTraceParser.escape_length (c :: rest) = None.
Proof.
  intros Hc. unfold TestTraceParser.escape_length.
  destruct c as [|p]; [done|]. repeat (destruct p as [p|p|]; try done).
Qed.

Lemma ansi_sub_plain pre rest :
  27%N ∉ pre →
  TestTraceParser.ansi_sub_from 0 (pre ++ rest)
  = pre ++ TestTraceParser.ansi_sub_from 0 rest.
Proof.
  induction pre as [|c pre IH]; intros Hpre; [done|].
  apply not_elem_of_cons in Hpre as [Hc Hpre].
  change ((c :: pre) ++ rest) with (c :: (pre ++ rest)).
  cbn [TestTraceParser.ansi_sub_from].
  rewrite escape_length_other by done. cbn. by rewrite IH.
Qed.

Lemma ansi_sub_skip k s :
  TestTraceParser.ansi_sub_from k s
  = TestTraceParser.ansi_sub_from 0 (drop k s).
Proof.
  revert k. induction s as [|c s IH]; intros [|k]; try done.
  cbn [TestTraceParser.ansi_sub_from drop]. apply IH.
Qed.

Lemma sgr_length_params params post :
  Forall (λ c, is_sgr_param c = true) params →
  TestTraceParser.sgr_length (params ++ 109%N :: post) = Some (S (length params)).
Proof.
  induction 1 as [|c params Hc _ IH]; [done|].
  cbn [app TestTraceParser.sgr_length length]. fold (is_sgr_param c).
  by rewrite Hc, IH.
Qed.


(** X18. Stripping colours removes a whole colour sequence [ESC [ params m]
    and touches nothing before it: text without an escape character comes
    back unchanged, and the text after the sequence is stripped in
    turn. *)
Theorem ansi_sub_strips_colour (pre params post : pystr) :
  27%N ∉ pre →
  Forall (λ c, is_sgr_param c = true) params →
  TestTraceParser.ANSI_ESCAPE_sub pre = pre
  ∧ TestTraceParser.ANSI_ESCAPE_sub (pre ++ sgr params ++ post)
    = pre ++ TestTraceParser.ANSI_ESCAPE_sub post.
Proof.
  intros Hpre Hparams. unfold TestTraceParser.ANSI_ESCAPE_sub. split.
  - rewrite <- (app_nil_r pre) at 1. rewrite ansi_sub_plain by done.
    apply app_nil_r.
  - rewrite ansi_sub_plain by done. f_equal.
    unfold sgr. rewrite <- !app_comm_cons, <- app_assoc.
    cbn [TestTraceParser.ansi_sub_from TestTraceParser.escape_length app].
    rewrite sgr_length_params by done. cbn [fmap option_fmap option_map pred].
    rewrite ansi_sub_skip. f_equal. cbn [drop].
    replace (params ++ 109%N :: post) with ((params ++ [109%N]) ++ post)
      by (by rewrite <- app_assoc).
    apply drop_app_length'. rewrite length_app. cbn. lia.
Qed.

Lemma ansi_sub_strips_colour_witness :
  (27%N ∉ codepoints "at ")
  ∧ Forall (λ c, is_sgr_param c = true) (codepoints "1;31")
  ∧ TestTraceParser.ANSI_ESCAPE_sub
      (codepoints "at " ++ sgr (codepoints "1;31") ++ codepoints "line 3")
    = codepoints "at " ++ TestTraceParser.ANSI_ESCAPE_sub (codepoints "line 3").
Proof.
  assert (27%N ∉ codepoints "at ") as Hpre.
  { intros Hin. by repeat (apply elem_of_cons in Hin as [Hin|Hin]; [done|]);
      apply elem_of_nil in Hin. }
  assert (Forall (λ c, is_sgr_param c = true) (codepoints "1;31")) as Hparams.
  { by repeat constructor. }
  split; [exact Hpre|]. split; [exact Hparams|].
  apply (ansi_sub_strips_colour (codepoints "at ") (codepoints "1;31")
           (codepoints "line 3") Hpre Hparams).
Defined.


Lemma last_filter_snoc {A} (p : A → bool) l x :
  last (List.filter p (l ++ [x]))
  = if p x then Some x else last (List.filter p l).
Proof.
  rewrite List.filter_app. cbn [List.filter]. destruct (p x).
  - apply last_snoc.
  - by rewrite app_nil_r.
Qed.



Example sample_last_line_wins :
  TestTraceParser._parse_assertion
    (codepoints "Expected: 1" ++ [10]%N ++ codepoints "Received: 2" ++ [10]%N
     ++ codepoints "   Expected:   3  ")
  = (Some (codepoints "3"), Some (codepoints "2")).
Proof. reflexivity. Qed.

Example sample_escape_left_over :
  TestTraceParser.ANSI_ESCAPE_sub (27%N :: sgr [48%N] ++ [91; 48; 109]%N)
  = sgr [48%N].
Proof. reflexivity. Qed.

(** ** Header and query lists *)

Lemma headers_to_dict_snoc headers h :
  NetworkParser._headers_to_dict (headers ++ [h])
  = if truthy (get (NetworkParser.p_name h) EmptyString)
    then <[get (NetworkParser.p_name h) EmptyString := get (NetworkParser.p_value h) EmptyString]>
           (NetworkParser._headers_to_dict headers)
    else NetworkParser._headers_to_dict headers.
Proof. unfold NetworkParser._headers_to_dict. by rewrite foldl_snoc. Qed.

Lemma named_truthy (h : NetworkParser.Pair) name :
  truthy name = true →
  bool_decide (NetworkParser.p_name h = Some name)
  = bool_decide (get (NetworkParser.p_name h) EmptyString = name).
Proof.
  intros Hname. apply bool_decide_ext.
  destruct (NetworkParser.p_name h) as [n|]; cbn; [naive_solver|].
  split; [done|]. intros <-. done.
Qed.

(** X20. The dict made from a header or query list maps a non-empty name to
    the value of the last pair of that name, a missing value reading as the
    empty string; pairs without a name or with an empty one are left out,
    so the empty string is never a key.  Both lists are converted alike. *)
Theorem headers_dict_keeps_last (headers : list NetworkParser.Pair) (name : string) :
  NetworkParser._headers_to_dict headers !! name
  = (if truthy name
     then (λ h, get (NetworkParser.p_value h) EmptyString)
            <$> last (List.filter
                        (λ h, bool_decide (NetworkParser.p_name h = Some name))
                        headers)
     else None)
  ∧ NetworkParser._query_to_dict headers = NetworkParser._headers_to_dict headers.
Proof.
  split; [|done].
  induction headers as [|h headers IH] using rev_ind.
  { unfold NetworkParser._headers_to_dict. cbn. rewrite lookup_empty.
    by destruct (truthy name). }
  rewrite headers_to_dict_snoc, last_filter_snoc.
  destruct (truthy name) eqn:Hname.
  - rewrite (named_truthy h name Hname).
    destruct (truthy (get (NetworkParser.p_name h) EmptyString)) eqn:Hh.
    + case_bool_decide as Hn.
      * rewrite Hn. by rewrite lookup_insert_eq.
      * by rewrite lookup_insert_ne.
    + rewrite bool_decide_eq_false_2; [done|]. intros Hn.
      by rewrite Hn, Hname in Hh.
  - destruct (truthy (get (NetworkParser.p_name h) EmptyString)) eqn:Hh; [|done].
    rewrite lookup_insert_ne; [done|]. intros Hn. by rewrite Hn, Hname in Hh.
Qed.

Example sample_headers :
  NetworkParser._headers_to_dict
    [NetworkParser.mkPair (Some "accept") (Some "text/html");
     NetworkParser.mkPair None (Some "dropped");
     NetworkParser.mkPair (Some "accept") None;
     NetworkParser.mkPair (Some "Accept") (Some "*/*")]
  = {[ "accept" := EmptyString; "Accept" := "*/*" ]}.
Proof. by vm_compute. Qed.

(** ** Errors and their context *)

Lemma error_class_is_key events :
  Forall (λ e, event_ok e = true) events →
  List.filter (has_type Error) events
  = List.filter (same_key PosInf Error) events.
Proof.
  intros Hok. apply List.filter_ext_in. intros e He.
  rewrite Forall_forall in Hok. specialize (Hok e (proj2 (list_elem_of_In _ _) He)).
  unfold event_ok, same_key in *.
  destruct (timestamp_ms e), (has_type Error e); done.
Qed.

Lemma head_fmap {A B} (f : A → B) l : f <$> head l = head (f <$> l).
Proof. by destruct l. Qed.

Lemma errors_filter a :
  EventIndex.errors (EventIndex.init a)
  = List.filter (has_type Error) (EventIndex.all (EventIndex.init a)).
Proof. apply (by_type_filter a Error). Qed.

Lemma parsed_errors a :
  List.filter (has_type Error) (parsed_events a)
  = TestTraceParser.parse_errors_only a.
Proof.
  unfold parsed_events. rewrite !List.filter_app.
  rewrite (filter_none (has_type Error) (NetworkParser.parse _)).
  2:{ eapply Forall_impl; [apply network_run_types|]. intros e.
      unfold has_type. intros H%bool_decide_eq_true.
      apply bool_decide_eq_false_2. congruence. }
  rewrite (filter_none (has_type Error) (BrowserTraceParser.parse _))
    by apply browser_run_no_error.
  cbn [app]. unfold TestTraceParser.parse, TestTraceParser.parse_errors_only.
  rewrite (proj1 (start_time_keeps_streams a)).
  symmetry. apply (errors_only_from_run _ TestTraceParser.init).
Qed.

Lemma all_ends_with_errors a :
  EventIndex.all (EventIndex.init a)
  = List.filter finite_stamp (EventIndex.all (EventIndex.init a))
    ++ EventIndex.errors (EventIndex.init a).
Proof.
  rewrite errors_filter.
  destruct (infinite_tail _ (all_ok a) (all_StronglySorted a))
    as (timed & untimed & Hall & Ht & Hu).
  rewrite Hall, !List.filter_app.
  rewrite (filter_all _ _ Ht), (filter_none finite_stamp untimed).
  2:{ eapply Forall_impl; [exact Hu|]. apply finite_not_infinite. }
  rewrite (filter_none (has_type Error) timed), (filter_all (has_type Error) untimed).
  - by rewrite app_nil_r.
  - pose proof (all_ok a) as Hok. rewrite Hall in Hok.
    apply Forall_app in Hok as [_ Hok].
    apply Forall_forall. intros e He. rewrite Forall_forall in Hok, Hu.
    specialize (Hok e He). specialize (Hu e He).
    unfold event_ok, infinite_stamp in *.
    destruct (timestamp_ms e); try done. by apply andb_true_iff in Hok as [? _].
  - pose proof (all_ok a) as Hok. rewrite Hall in Hok.
    apply Forall_app in Hok as [Hok _].
    apply Forall_forall. intros e He. rewrite Forall_forall in Hok, Ht.
    specialize (Hok e He). specialize (Ht e He).
    unfold event_ok, finite_stamp in *.
    destruct (timestamp_ms e); try done. by apply negb_true_iff in Hok.
Qed.

(** X21. The errors of the index are the errors of the test stream in
    stream order and stand after every other event: [errors()] equals
    [parse_errors_only()] up to the [index] field, [all()] is its
    finite-timestamp events followed by [errors()], and the [test_failure]
    that the errors command reports is the first error record of the
    stream. *)
Theorem index_errors_in_stream_order (a : TraceArchive) :
  let idx := EventIndex.init a in
  unindexed <$> EventIndex.errors idx
  = unindexed <$> TestTraceParser.parse_errors_only a
  ∧ EventIndex.all idx
    = List.filter finite_stamp (EventIndex.all idx) ++ EventIndex.errors idx
  ∧ unindexed <$> ErrorsCommand.test_failure idx
    = unindexed <$> TestTraceParser.get_first_error a.
Proof.
  cbn zeta.
  assert (unindexed <$> EventIndex.errors (EventIndex.init a)
          = unindexed <$> TestTraceParser.parse_errors_only a) as Herr.
  { rewrite errors_filter, (error_class_is_key _ (all_ok a)).
    rewrite <- parsed_errors, (error_class_is_key _ (parsed_events_ok a)).
    rewrite !filter_unindexed by done. rewrite all_unindexed.
    rewrite <- !filter_unindexed by done. f_equal.
    apply sort_by_class, same_key_not_below. }
  split; [exact Herr|]. split; [apply all_ends_with_errors|].
  unfold ErrorsCommand.test_failure, TestTraceParser.get_first_error.
  rewrite !head_fmap. by rewrite Herr.
Qed.

Lemma typed_finite a ty :
  ty ≠ Error →
  Forall (λ e, finite_stamp e = true)
    (List.filter (has_type ty) (EventIndex.all (EventIndex.init a))).
Proof.
  intros Hty. apply Forall_forall. intros e He.
  apply list_elem_of_In, filter_In in He as [He Hte].
  pose proof (all_ok a) as Hok. rewrite Forall_forall in Hok.
  specialize (Hok e (proj2 (list_elem_of_In _ _) He)).
  unfold event_ok, finite_stamp, has_type in *.
  apply bool_decide_eq_true in Hte.
  destruct (timestamp_ms e); try done.
  apply andb_true_iff in Hok as [Hok _]. apply bool_decide_eq_true in Hok.
  congruence.
Qed.

Lemma finite_is_not_sentinel e :
  finite_stamp e = true → Float.neqb (timestamp_ms e) PosInf = true.
Proof. unfold finite_stamp. by destruct (timestamp_ms e). Qed.

(** X22. The context of an error looks back from the approximate error
    time.  Its filter for finite timestamps drops no action, since only
    errors carry the sentinel, so [recent_actions] is the last five actions
    of the index.  The upper bound of the console window never excludes
    anything: [recent_console] is the console events of
    [after(error_time - 2000)].  When there is no error time the index
    holds errors only. *)
Theorem error_context_is_recent (a : TraceArchive) :
  let idx := EventIndex.init a in
  ErrorsCommand.recent_actions idx
  = ErrorsCommand.last_n 5 (EventIndex.actions idx)
  ∧ ErrorsCommand.recent_actions idx `suffix_of` EventIndex.actions idx
  ∧ ErrorsCommand.recent_network idx `suffix_of` EventIndex.network idx
  ∧ match ErrorsCommand.error_time idx with
    | Some m =>
        ErrorsCommand.recent_console idx m
        = List.filter (has_type Console)
            (EventIndex.after idx (Float.sub m (Finite 2000)))
    | None => EventIndex.all idx = EventIndex.errors idx
    end.
Proof.
  cbn zeta.
  assert (ErrorsCommand.recent_actions (EventIndex.init a)
          = ErrorsCommand.last_n 5 (EventIndex.actions (EventIndex.init a))) as Hact.
  { unfold ErrorsCommand.recent_actions. f_equal. apply filter_all.
    unfold EventIndex.actions. change "action" with (type_name Action).
    rewrite by_type_filter.
    eapply Forall_impl; [by apply (typed_finite a Action)|].
    apply finite_is_not_sentinel. }
  split; [exact Hact|]. split; [rewrite Hact; apply suffix_drop|].
  split; [apply suffix_drop|].
  pose proof (error_time_bounds a) as Hb.
  destruct (ErrorsCommand.error_time (EventIndex.init a)) as [m|].
  - destruct Hb as [Hm Hmax].
    unfold ErrorsCommand.recent_console, EventIndex.console, EventIndex.after.
    change "console" with (type_name Console).
    rewrite by_type_filter, after_scan_filter, !filter_filter.
    apply List.filter_ext_in. intros e He.
    destruct (has_type Console e) eqn:Hty; [|by rewrite !andb_false_r].
    rewrite !andb_true_r. unfold Float.geb.
    assert (Float.leb (timestamp_ms e) m = true) as ->; [|by rewrite andb_true_r].
    rewrite Forall_forall in Hmax. apply Hmax; [by apply list_elem_of_In|].
    pose proof (typed_finite a Console) as Hfin. rewrite Forall_forall in Hfin.
    apply Hfin; [done|]. apply list_elem_of_In, filter_In. by split.
  - rewrite (all_ends_with_errors a) at 1.
    rewrite filter_none; [done|].
    eapply Forall_impl; [exact Hb|]. apply finite_not_infinite.
Qed.

Example sample_context :
  (λ e, timestamp_ms e)
    <$> ErrorsCommand.recent_console (EventIndex.init frames_archive) (Finite 40)
  = [Finite 12; Finite 40].
Proof. by vm_compute. Qed.

(** ** The actions command *)

Lemma browser_run_Forall (P : Event → Prop) :
  (∀ st r, Forall P (BrowserTraceParser.step st r).2) →
  ∀ l st, Forall P (BrowserTraceParser.run st l).2.
Proof.
  intros Hstep. induction l as [|r l IH]; intros st; [constructor|].
  rewrite BrowserFacts.run_cons_rt; cbn [snd]. apply Forall_app. by split.
Qed.

Lemma test_run_Forall (P : Event → Prop) :
  (∀ st r, Forall P (TestTraceParser.step st r).2) →
  ∀ l st, Forall P (TestTraceParser.run st l).2.
Proof.
  intros Hstep. induction l as [|r l IH]; intros st; [constructor|].
  rewrite TestFacts.run_cons_tt; cbn [snd]. apply Forall_app. by split.
Qed.

Lemma network_run_Forall (P : Event → Prop) a :
  (∀ r i e, NetworkParser._parse_entry a r i = Some e → P e) →
  ∀ l i, Forall P (NetworkParser.run a i l).
Proof.
  intros Hentry. induction l as [|r l IH]; intros i; [constructor|].
  cbn [NetworkParser.run].
  destruct (NetworkParser._parse_entry a r i) as [e|] eqn:He; [|apply IH].
  constructor; [by eapply Hentry|apply IH].
Qed.

Lemma failed_in_parsed a :
  Forall (λ e, ActionsCommand.failed e = true →
               source_file e = "0-trace.trace"
               ∧ ∃ before after,
                   raw e = RawPair before after
                   ∧ is_Some (k_result_error after))
    (parsed_events a).
Proof.
  unfold parsed_events. repeat apply Forall_app_2.
  - apply network_run_Forall. intros r i e.
    unfold NetworkParser._parse_entry. destruct (negb _); [done|].
    by intros [= <-].
  - apply browser_run_Forall. intros st r.
    unfold BrowserTraceParser.step. parsed_cases;
      try (by apply List.Forall_nil); apply Forall_singleton;
      unfold ActionsCommand.failed; cbn; try done.
    all: intros Hfail; split; [done|]; eexists _, _; split; [done|];
      by destruct (k_result_error r).
  - apply test_run_Forall. intros st r.
    unfold TestTraceParser.step. parsed_cases;
      try (by apply List.Forall_nil); by apply Forall_singleton.
Qed.

Lemma actions_filter a :
  EventIndex.actions (EventIndex.init a)
  = List.filter (has_type Action) (EventIndex.all (EventIndex.init a)).
Proof. apply (by_type_filter a Action). Qed.

(** X23. The actions command, without name and selector filters.
    [--failed] lists runtime spans only, those whose [after] record
    carries an error: a test step is never listed, because its event is
    built without one.  The two time bounds select the actions of
    [in_range(after, before)].  [--index n] selects by position among the
    actions in index order, and a negative [n] is out of range instead of
    counting from the end. *)
Theorem actions_command_selects (a : TraceArchive) (s t : pyfloat)
    (after_arg before_arg : option pyfloat) (n : Z) :
  let idx := EventIndex.init a in
  Forall (λ e, source_file e = "0-trace.trace"
               ∧ ∃ before after,
                   raw e = RawPair before after
                   ∧ is_Some (k_result_error after))
    (ActionsCommand._filter_actions idx true after_arg before_arg)
  ∧ ActionsCommand._filter_actions idx false (Some s) (Some t)
    = List.filter (has_type Action) (EventIndex.in_range idx s t)
  ∧ ActionsCommand._get_single idx n
    = (if 0 <=? n
       then List.filter (has_type Action) (EventIndex.all idx) !! Z.to_nat n
       else None).
Proof.
  cbn zeta. split; [|split].
  - assert (Forall (λ e, ActionsCommand.failed e = true →
                         source_file e = "0-trace.trace"
                         ∧ ∃ before after,
                             raw e = RawPair before after
                             ∧ is_Some (k_result_error after))
              (EventIndex.all (EventIndex.init a))) as Hall.
    { apply all_Forall; [done|apply failed_in_parsed]. }
    rewrite Forall_forall in Hall. apply Forall_forall. intros e He.
    assert (e ∈ List.filter ActionsCommand.failed
                  (EventIndex.actions (EventIndex.init a))) as Hin.
    { unfold ActionsCommand._filter_actions in He.
      destruct after_arg, before_arg;
        repeat match type of He with
               | _ ∈ List.filter (λ _, Float.geb _ _) _ =>
                   apply list_elem_of_In, filter_In in He as [He%list_elem_of_In _]
               | _ ∈ List.filter (λ _, Float.leb _ _) _ =>
                   apply list_elem_of_In, filter_In in He as [He%list_elem_of_In _]
               end; exact He. }
    apply list_elem_of_In, filter_In in Hin as [Hin Hfail].
    rewrite actions_filter in Hin. apply filter_In in Hin as [Hin _].
    apply Hall; [by apply list_elem_of_In|done].
  - unfold ActionsCommand._filter_actions.
    rewrite actions_filter, in_range_is_filter_gen, !filter_filter.
    apply filter_ext. intros e. unfold Float.geb.
    destruct (has_type Action e), (Float.leb _ _), (Float.leb _ _); done.
  - unfold ActionsCommand._get_single. rewrite actions_filter.
    set (l := List.filter _ _).
    destruct (0 <=? n) eqn:Hn.
    + apply Z.leb_le in Hn. rewrite (proj2 (Z.ltb_ge n 0)) by lia. cbn [orb].
      destruct (n >=? Z.of_nat (length l)) eqn:Hlen; [|done].
      symmetry. apply lookup_ge_None. lia.
    + apply Z.leb_gt in Hn. by rewrite (proj2 (Z.ltb_lt n 0)) by lia.
Qed.
